(** * remotetool: a shallow embedding of go/cmd/remotetool/main.go

    The development follows the source file top-down: first the pieces of
    the Go standard library the tool calls (strings.TrimSpace, strings.Split,
    bufio.Scanner with bufio.ScanLines, fmt's %v on a slice of strings),
    then the data of package command, then the effects of the tool (calls on
    the remote client, writes to stdout, log.Exitf), then [ComputeTree] and
    [main] themselves, and finally the properties. *)

From Stdlib Require Import List Ascii String ZArith NArith Bool Lia.
Import ListNotations.

Local Open Scope list_scope.

(** ** Go strings

    A Go string is an immutable sequence of bytes; [ascii] is the 8-bit
    byte.  [go] turns a literal into such a sequence. *)

Definition gostring : Type := list ascii.

Definition go (s : string) : gostring := list_ascii_of_string s.

Definition gostring_dec (a b : gostring) : {a = b} + {a <> b} :=
  list_eq_dec ascii_dec a b.

(** [a == b] on Go strings. *)
Definition streq (a b : gostring) : bool :=
  if gostring_dec a b then true else false.

Definition byte (c : ascii) : N := N_of_ascii c.

Module strings.

(** asciiSpace of package strings: '\t', '\n', '\v', '\f', '\r', ' '. *)
Definition asciiSpace (c : ascii) : bool :=
  let n := byte c in
  (n =? 0x09)%N || (n =? 0x0a)%N || (n =? 0x0b)%N
  || (n =? 0x0c)%N || (n =? 0x0d)%N || (n =? 0x20)%N.

(** unicode.IsSpace on the runes that take two bytes in UTF-8:
    U+0085 (NEL) and U+00A0 (NBSP). *)
Definition space2 (c1 c2 : ascii) : bool :=
  (byte c1 =? 0xc2)%N && ((byte c2 =? 0x85)%N || (byte c2 =? 0xa0)%N).

(** unicode.IsSpace on the runes that take three bytes in UTF-8:
    U+1680, U+2000..U+200A, U+2028, U+2029, U+202F, U+205F, U+3000. *)
Definition space3 (c1 c2 c3 : ascii) : bool :=
  let a := byte c1 in
  let b := byte c2 in
  let c := byte c3 in
  ((a =? 0xe1)%N && (b =? 0x9a)%N && (c =? 0x80)%N)
  || ((a =? 0xe2)%N && (b =? 0x80)%N
      && (((0x80 <=? c)%N && (c <=? 0x8a)%N)
          || (c =? 0xa8)%N || (c =? 0xa9)%N || (c =? 0xaf)%N))
  || ((a =? 0xe2)%N && (b =? 0x81)%N && (c =? 0x9f)%N)
  || ((a =? 0xe3)%N && (b =? 0x80)%N && (c =? 0x80)%N).

(** Drop from the front every rune recognised by [p1] (one byte), [p2]
    (two bytes) or [p3] (three bytes); stop at the first byte that starts
    none.  This is the loop of strings.TrimLeftFunc, with the rune
    decoding and the test fused. *)
Fixpoint trimRunes (p1 : ascii -> bool) (p2 : ascii -> ascii -> bool)
    (p3 : ascii -> ascii -> ascii -> bool) (s : gostring) : gostring :=
  match s with
  | [] => []
  | c1 :: r1 =>
      if p1 c1 then trimRunes p1 p2 p3 r1
      else match r1 with
           | [] => s
           | c2 :: r2 =>
               if p2 c1 c2 then trimRunes p1 p2 p3 r2
               else match r2 with
                    | [] => s
                    | c3 :: r3 =>
                        if p3 c1 c2 c3 then trimRunes p1 p2 p3 r3 else s
                    end
           end
  end.

(** strings.TrimLeftFunc(s, unicode.IsSpace) *)
Definition TrimLeftSpace (s : gostring) : gostring :=
  trimRunes asciiSpace space2 space3 s.

(** strings.TrimRightFunc(s, unicode.IsSpace): the same loop run from the
    last byte backwards, so the patterns are read in reverse. *)
Definition TrimRightSpace (s : gostring) : gostring :=
  rev (trimRunes asciiSpace (fun a b => space2 b a)
         (fun a b c => space3 c b a) (rev s)).

(** strings.TrimSpace: "returns a slice of the string s, with all leading
    and trailing white space removed, as defined by Unicode". *)
Definition TrimSpace (s : gostring) : gostring :=
  TrimRightSpace (TrimLeftSpace s).

(** strings.Split(s, sep) for a separator of one byte: the pieces of [s]
    between the occurrences of [sep]; one piece more than there are
    separators, so [Split "" sep] is the one empty piece. *)
Fixpoint Split (s : gostring) (sep : ascii) : list gostring :=
  match s with
  | [] => [[]]
  | c :: r =>
      if Ascii.eqb c sep then [] :: Split r sep
      else match Split r sep with
           | p :: ps => (c :: p) :: ps
           | [] => [[c]]
           end
  end.

(** strings.HasPrefix *)
Fixpoint HasPrefix (s prefix : gostring) : bool :=
  match prefix, s with
  | [], _ => true
  | p :: ps, c :: cs => Ascii.eqb p c && HasPrefix cs ps
  | _ :: _, [] => false
  end.

(** strings.Contains *)
Fixpoint Contains (s substr : gostring) : bool :=
  HasPrefix s substr ||
  match s with
  | [] => false
  | _ :: r => Contains r substr
  end.

(** strings.Join *)
Fixpoint Join (elems : list gostring) (sep : gostring) : gostring :=
  match elems with
  | [] => []
  | [e] => e
  | e :: es => e ++ sep ++ Join es sep
  end.

End strings.

Module bufio.

(** MaxScanTokenSize = 64 * 1024 *)
Definition MaxScanTokenSize : N := 65536.

Definition newline : ascii := "010"%char.
Definition cr : ascii := "013"%char.

(** The lines of [data] as bufio.ScanLines cuts them: every
    newline-terminated line without its newline, then the final
    non-terminated line when it is not empty. *)
Fixpoint rawLines (data : gostring) : list gostring :=
  match data with
  | [] => []
  | c :: r =>
      if Ascii.eqb c newline then [] :: rawLines r
      else match rawLines r with
           | l :: ls => (c :: l) :: ls
           | [] => [[c]]
           end
  end.

(** dropCR: "drops a terminal \r from the data". *)
Definition dropCR (l : gostring) : gostring :=
  match rev l with
  | c :: r => if Ascii.eqb c cr then rev r else l
  | [] => l
  end.

(** A line fits when the scanner's buffer (at most MaxScanTokenSize bytes)
    is not filled before the line's end is seen. *)
Definition fits (l : gostring) : bool :=
  (N.of_nat (List.length l) <? MaxScanTokenSize)%N.

Fixpoint takeFitting (ls : list gostring) : list gostring :=
  match ls with
  | [] => []
  | l :: r => if fits l then l :: takeFitting r else []
  end.

(** The successive values of scanner.Text() in [for scanner.Scan()] over a
    scanner with Split(bufio.ScanLines): Scan returns false at the end of
    the data and at the first line that is too long (ErrTooLong), which
    the loop of the tool does not tell apart. *)
Definition scanLines (data : gostring) : list gostring :=
  map dropCR (takeFitting (rawLines data)).

End bufio.

Module fmt.

(** The %v verb on a slice of strings: the elements separated by spaces,
    in square brackets. *)
Definition vslice (l : list gostring) : gostring :=
  go "[" ++ strings.Join l (go " ") ++ go "]".

End fmt.

(** The line feed, to write the contents of files. *)
Definition LF : gostring := [bufio.newline].

(** ** Package command

    The tool builds values of two types of go/pkg/command. *)

(** Modelled from the spec: command.VirtualInput, declared in go/pkg/command
    (not in this file): "VirtualInput = {path: string, contents:
    optional<bytes>, isExecutable: bool}".  A field left out of a composite
    literal has its zero value: no contents, not executable. *)
Record VirtualInput : Type := mkVirtualInput {
  Path : gostring;
  Contents : option gostring;
  IsExecutable : bool
}.

(** Modelled from the spec: command.InputSpec, declared in go/pkg/command
    (not in this file): "InputSpec — {inputs: ordered sequence of path,
    virtualInputs: ordered sequence of VirtualInput}". *)
Record InputSpec : Type := mkInputSpec {
  Inputs : list gostring;
  VirtualInputs : list VirtualInput
}.

(** command.InputSpec{} *)
Definition InputSpec_zero : InputSpec :=
  {| Inputs := []; VirtualInputs := [] |}.

(** ** Operations and flags *)

(** type OpType string *)
Definition OpType : Type := gostring.

Definition downloadActionResult : OpType := go "download_action_result".
Definition showAction : OpType := go "show_action".
Definition downloadBlob : OpType := go "download_blob".
Definition downloadDir : OpType := go "download_dir".
Definition reexecuteAction : OpType := go "reexecute_action".
Definition checkDeterminism : OpType := go "check_determinism".
Definition uploadBlob : OpType := go "upload_blob".
Definition computeTree : OpType := go "compute_tree".

Definition supportedOps : list OpType :=
  [ downloadActionResult;
    showAction;
    downloadBlob;
    downloadDir;
    reexecuteAction;
    checkDeterminism;
    uploadBlob ].

(** The values of the command-line flags after flag.Parse(). *)
Record Flags : Type := mkFlags {
  operation : gostring;
  digest : gostring;
  pathPrefix : gostring;
  inputRoot : gostring;
  execAttempts : Z;
  cpuProfFile : gostring
}.

(** The usage string of the -operation flag, as flag.PrintDefaults shows it. *)
Definition operation_usage : gostring :=
  go "Specifies the operation to perform. Supported values: "
  ++ fmt.vslice supportedOps.

(** ** Effects

    What the tool does to the outside: calls on the remote client, writes
    to standard output and standard error, and the deferred calls that run
    when a function returns.  A Go [error] is kept as the text %v prints
    for it. *)

Definition error : Type := gostring.

(** Package outerr: the sink a call writes the output of a remote action
    to.  main hands over one sink only, outerr.SystemOutErr, which writes
    to os.Stdout and os.Stderr. *)
Inductive OutErr : Type :=
| SystemOutErr.

(** What is written to a sink: a piece of the standard output of the
    action, or a piece of its standard error. *)
Inductive Chunk : Type :=
| ToStdout (b : gostring)
| ToStderr (b : gostring).

Inductive Event : Type :=
| ComputeMerkleTree (execRoot : gostring) (spec : InputSpec)
| DownloadActionResult (actionDigest pathPrefix : gostring)
| DownloadBlob (blobDigest path : gostring)
| DownloadDirectory (rootDigest path : gostring)
| ShowAction (actionDigest : gostring)
| ReexecuteAction (actionDigest inputRoot : gostring) (oe : OutErr)
| CheckDeterminism (actionDigest inputRoot : gostring) (attempts : Z)
| UploadBlob (path : gostring)
| StdoutWrite (b : gostring)
| StderrWrite (b : gostring)
| FileCreate (file : gostring)
| StartCPUProfile (file : gostring)
| StopCPUProfile
| FileClose (file : gostring)
| ClientConnect
| ClientClose
| LogInfoRan (totalRuns : Z).

(** What c.ReexecuteAction does with the sink it is given and what it
    returns: the pieces it writes to the sink while the action runs, in
    order, and its error. *)
Record Reexecution : Type := mkReexecution {
  streamed : list Chunk;
  reexecution_error : option error
}.

(** What the outside answers.  [None] in an [option error] is a nil error. *)
Record World : Type := mkWorld {
  os_Create : gostring -> option error;
  pprof_StartCPUProfile : gostring -> option error;
  NewClientFromFlags : option error;
  os_Open : gostring -> option gostring;
  tool_DownloadActionResult : gostring -> gostring -> option error;
  tool_DownloadBlob : gostring -> gostring -> gostring + error;
  tool_DownloadDirectory : gostring -> gostring -> option error;
  tool_ShowAction : gostring -> gostring + error;
  tool_ReexecuteAction : gostring -> gostring -> Reexecution;
  tool_CheckDeterminism : gostring -> gostring -> Z -> option error;
  tool_UploadBlob : gostring -> option error
}.

(** How a computation ends: it returns, or the process is stopped by
    log.Exitf or log.Fatal with a message (deferred calls do not run). *)
Inductive Outcome (A : Type) : Type :=
| Returned (a : A)
| Exitf (msg : gostring)
| Fatal (msg : gostring).

Arguments Returned {A} a.
Arguments Exitf {A} msg.
Arguments Fatal {A} msg.

(** A computation: the events it performs, in order, and how it ends. *)
Definition M (A : Type) : Type := (list Event * Outcome A)%type.

Definition ret {A : Type} (a : A) : M A := ([], Returned a).

Definition bind {A B : Type} (m : M A) (k : A -> M B) : M B :=
  match m with
  | (t, Returned a) => let (t', o) := k a in (t ++ t', o)
  | (t, Exitf msg) => (t, Exitf msg)
  | (t, Fatal msg) => (t, Fatal msg)
  end.

Definition emit (e : Event) : M unit := ([e], Returned tt).

(** Several events in a row. *)
Definition emit_all (es : list Event) : M unit := (es, Returned tt).

(** Writing a piece to a sink: through outerr.SystemOutErr it goes to the
    standard output or the standard error of the process. *)
Definition OutErr_write (oe : OutErr) (c : Chunk) : Event :=
  match oe, c with
  | SystemOutErr, ToStdout b => StdoutWrite b
  | SystemOutErr, ToStderr b => StderrWrite b
  end.

Definition log_Exitf {A : Type} (msg : gostring) : M A := ([], Exitf msg).

Definition log_Fatal {A : Type} (msg : gostring) : M A := ([], Fatal msg).

Declare Scope go_scope.
Delimit Scope go_scope with gomonad.

Notation "x <- m ;; k" := (bind m (fun x => k))
  (at level 61, m at next level, right associativity) : go_scope.
Notation "m ;; k" := (bind m (fun _ => k))
  (at level 61, right associativity) : go_scope.

Local Open Scope go_scope.

Definition trace {A : Type} (m : M A) : list Event := fst m.
Definition outcome {A : Type} (m : M A) : Outcome A := snd m.

(** ** Go's int: 64 bits, two's complement *)

Definition wrap64 (x : Z) : Z :=
  ((x + 2 ^ 63) mod 2 ^ 64 - 2 ^ 63)%Z.

Definition int_add (a b : Z) : Z := wrap64 (a + b).

(** ** The flag getters *)

Definition getDigestFlag (f : Flags) : M gostring :=
  if streq (digest f) (go "") then log_Exitf (go "--digest must be specified.")
  else ret (digest f).

Definition getPathFlag (f : Flags) : M gostring :=
  if streq (pathPrefix f) (go "") then log_Exitf (go "--path must be specified.")
  else ret (pathPrefix f).

(** ** ComputeTree *)

(** The variables the loop of ComputeTree updates. *)
Record LoopState : Type := mkLoopState {
  is_ : InputSpec;
  totalRuns : Z
}.

(** One turn of [for scanner.Scan()], for the line [txt]. *)
Definition ComputeTree_body (root : gostring) (st : LoopState)
    (txt : gostring) : M LoopState :=
  if streq (strings.TrimSpace txt) (go "") then
    if negb (List.length (Inputs (is_ st)) =? 0)
       || negb (List.length (VirtualInputs (is_ st)) =? 0)
    then
      emit (ComputeMerkleTree root (is_ st)) ;;
      ret {| is_ := InputSpec_zero; totalRuns := int_add (totalRuns st) 1 |}
    else ret st
  else
    let brokenTxt := strings.Split txt ":"%char in
    if negb (List.length brokenTxt =? 2) then
      log_Exitf (go "broken line " ++ txt)
    else
      let key := strings.TrimSpace (nth 0 brokenTxt []) in
      let v := strings.TrimSpace (nth 1 brokenTxt []) in
      if streq key (go "inputs") then
        ret {| is_ := {| Inputs := Inputs (is_ st) ++ [v];
                         VirtualInputs := VirtualInputs (is_ st) |};
               totalRuns := totalRuns st |}
      else if streq key (go "path") then
        ret {| is_ := {| Inputs := Inputs (is_ st);
                         VirtualInputs :=
                           VirtualInputs (is_ st)
                           ++ [ {| Path := v; Contents := None;
                                   IsExecutable := false |} ] |};
               totalRuns := totalRuns st |}
      else log_Exitf (go "broken line " ++ txt).

(** The loop over the lines the scanner yields. *)
Fixpoint ComputeTree_loop (root : gostring) (lines : list gostring)
    (st : LoopState) : M LoopState :=
  match lines with
  | [] => ret st
  | txt :: rest =>
      st' <- ComputeTree_body root st txt ;;
      ComputeTree_loop root rest st'
  end.

(** func ComputeTree: the deferred log.Infof runs when the function
    returns, with the final value of totalRuns (the elapsed time it also
    prints is left out). *)
Definition ComputeTree (f : Flags) (w : World) : M unit :=
  p <- getPathFlag f ;;
  match os_Open w p with
  | None => log_Exitf (go "failed to open input")
  | Some data =>
      st <- ComputeTree_loop (inputRoot f) (bufio.scanLines data)
              {| is_ := InputSpec_zero; totalRuns := 0 |} ;;
      emit (LogInfoRan (totalRuns st))
  end.

(** ** main *)

(** The message of the default case of the switch. *)
Definition unsupported_operation (op : gostring) : gostring :=
  go "unsupported operation " ++ op ++ go ". Supported operations:" ++ LF
  ++ fmt.vslice supportedOps.

(** [switch OpType( *operation )]: the cases are tried in the order they are
    written.  The arguments of a call are evaluated left to right, so
    getDigestFlag() comes before getPathFlag(). *)
Definition main_switch (f : Flags) (w : World) : M unit :=
  let op : OpType := operation f in
  if streq op downloadActionResult then
    d <- getDigestFlag f ;;
    p <- getPathFlag f ;;
    emit (DownloadActionResult d p) ;;
    match tool_DownloadActionResult w d p with
    | Some err =>
        d' <- getDigestFlag f ;;
        log_Exitf (go "error downloading action result for digest " ++ d'
                   ++ go ": " ++ err)
    | None => ret tt
    end
  else if streq op downloadBlob then
    d <- getDigestFlag f ;;
    p <- getPathFlag f ;;
    emit (DownloadBlob d p) ;;
    match tool_DownloadBlob w d p with
    | inr err =>
        d' <- getDigestFlag f ;;
        log_Exitf (go "error downloading blob for digest " ++ d'
                   ++ go ": " ++ err)
    | inl res => emit (StdoutWrite res)
    end
  else if streq op downloadDir then
    d <- getDigestFlag f ;;
    p <- getPathFlag f ;;
    emit (DownloadDirectory d p) ;;
    match tool_DownloadDirectory w d p with
    | Some err =>
        d' <- getDigestFlag f ;;
        log_Exitf (go "error downloading directory for digest " ++ d'
                   ++ go ": " ++ err)
    | None => ret tt
    end
  else if streq op showAction then
    d <- getDigestFlag f ;;
    emit (ShowAction d) ;;
    match tool_ShowAction w d with
    | inr err =>
        d' <- getDigestFlag f ;;
        log_Exitf (go "error fetching action " ++ d' ++ go ": " ++ err)
    | inl res => emit (StdoutWrite res)
    end
  else if streq op reexecuteAction then
    d <- getDigestFlag f ;;
    emit (ReexecuteAction d (inputRoot f) SystemOutErr) ;;
    emit_all (map (OutErr_write SystemOutErr)
                (streamed (tool_ReexecuteAction w d (inputRoot f)))) ;;
    match reexecution_error (tool_ReexecuteAction w d (inputRoot f)) with
    | Some err =>
        d' <- getDigestFlag f ;;
        log_Exitf (go "error reexecuting action " ++ d' ++ go ": " ++ err)
    | None => ret tt
    end
  else if streq op checkDeterminism then
    d <- getDigestFlag f ;;
    emit (CheckDeterminism d (inputRoot f) (execAttempts f)) ;;
    match tool_CheckDeterminism w d (inputRoot f) (execAttempts f) with
    | Some err =>
        d' <- getDigestFlag f ;;
        log_Exitf (go "error checking the determinism of " ++ d'
                   ++ go ": " ++ err)
    | None => ret tt
    end
  else if streq op uploadBlob then
    p <- getPathFlag f ;;
    emit (UploadBlob p) ;;
    match tool_UploadBlob w p with
    | Some err =>
        d' <- getDigestFlag f ;;
        log_Exitf (go "error uploading blob for digest " ++ d'
                   ++ go ": " ++ err)
    | None => ret tt
    end
  else if streq op computeTree then
    ComputeTree f w
  else
    log_Exitf (unsupported_operation (operation f)).

(** [if *cpuProfFile != "" { ... }]: what runs at once. *)
Definition main_startProfile (f : Flags) (w : World) : M unit :=
  if negb (streq (cpuProfFile f) (go "")) then
    match os_Create w (cpuProfFile f) with
    | Some err => log_Fatal (go "Could not create CPU profile: " ++ err)
    | None =>
        emit (FileCreate (cpuProfFile f)) ;;
        match pprof_StartCPUProfile w (cpuProfFile f) with
        | Some err => log_Fatal (go "Could not start CPU profile: " ++ err)
        | None => emit (StartCPUProfile (cpuProfFile f))
        end
    end
  else ret tt.

(** The calls main defers, run last-in first-out when main returns:
    grpcClient.Close(), then pprof.StopCPUProfile() and f.Close() when a
    profile was started. *)
Definition main_deferred (f : Flags) : M unit :=
  emit ClientClose ;;
  if negb (streq (cpuProfFile f) (go "")) then
    emit StopCPUProfile ;;
    emit (FileClose (cpuProfFile f))
  else ret tt.

(** func main, after flag.Parse(). *)
Definition main (f : Flags) (w : World) : M unit :=
  if streq (operation f) (go "") then
    log_Exitf (go "--operation must be specified.")
  else if (execAttempts f <=? 0)%Z then
    log_Exitf (go "--exec_attempts must be >= 1.")
  else
    main_startProfile f w ;;
    match NewClientFromFlags w with
    | Some err =>
        log_Exitf (go "error connecting to remote execution client: " ++ err)
    | None =>
        emit ClientConnect ;;
        main_switch f w ;;
        main_deferred f
    end.

(** ** Observations on a run *)

(** The events of a run that [sel] selects, in order. *)
Fixpoint collect {X : Type} (sel : Event -> option X) (t : list Event)
    : list X :=
  match t with
  | [] => []
  | e :: r =>
      match sel e with
      | Some x => x :: collect sel r
      | None => collect sel r
      end
  end.

(** What a run writes to standard output, in order. *)
Definition stdout (t : list Event) : list gostring :=
  collect (fun e => match e with StdoutWrite b => Some b | _ => None end) t.

(** The input specifications a run hands to ComputeMerkleTree, in order. *)
Definition builds (t : list Event) : list InputSpec :=
  collect (fun e => match e with
                    | ComputeMerkleTree _ spec => Some spec
                    | _ => None
                    end) t.

(** The attempt counts a run hands to CheckDeterminism, in order. *)
Definition attempts_passed (t : list Event) : list Z :=
  collect (fun e => match e with
                    | CheckDeterminism _ _ n => Some n
                    | _ => None
                    end) t.

(** The events of setting up and winding down: the profile and the
    connection. *)
Definition is_setup (e : Event) : bool :=
  match e with
  | FileCreate _ | StartCPUProfile _ | StopCPUProfile | FileClose _
  | ClientConnect | ClientClose => true
  | _ => false
  end.

(** An input specification with no input and no virtual input. *)
Definition InputSpec_empty (s : InputSpec) : bool :=
  match Inputs s, VirtualInputs s with
  | [], [] => true
  | _, _ => false
  end.

(** A world for the examples: the file spec.txt holds [data], every remote
    call succeeds, and a downloaded blob is [blob]. *)
Definition world_with (data blob : gostring) : World :=
  {| os_Create := fun _ => None;
     pprof_StartCPUProfile := fun _ => None;
     NewClientFromFlags := None;
     os_Open := fun p => if streq p (go "spec.txt") then Some data else None;
     tool_DownloadActionResult := fun _ _ => None;
     tool_DownloadBlob := fun _ _ => inl blob;
     tool_DownloadDirectory := fun _ _ => None;
     tool_ShowAction := fun _ => inl (go "action");
     tool_ReexecuteAction :=
       fun _ _ => {| streamed := []; reexecution_error := None |};
     tool_CheckDeterminism := fun _ _ _ => None;
     tool_UploadBlob := fun _ => None |}.

(** The flags of [remotetool --operation=op --path=spec.txt]. *)
Definition flags_for (op dg path : gostring) (n : Z) : Flags :=
  {| operation := op; digest := dg; pathPrefix := path;
     inputRoot := go ""; execAttempts := n; cpuProfFile := go "" |}.

(** The batch spec of the parsing scenario. *)
Definition two_records : gostring :=
  go "inputs: a.txt" ++ LF ++ go "path: b.txt" ++ LF ++ LF
  ++ go "inputs: c.txt" ++ LF.

(** A batch whose first record has a line without a colon and whose
    second record is well formed. *)
Definition bad_then_good : gostring :=
  go "inputs a.txt" ++ LF ++ LF ++ go "inputs: b.txt" ++ LF ++ LF.

(** The same two records the other way round. *)
Definition good_then_bad : gostring :=
  go "inputs: b.txt" ++ LF ++ LF ++ go "inputs a.txt" ++ LF ++ LF.

(** A batch of one record, closed by a blank line. *)
Definition one_record : gostring := go "inputs: a.txt" ++ LF ++ LF.

(** The first and the second record of [two_records]. *)
Definition record_ab : InputSpec :=
  {| Inputs := [go "a.txt"];
     VirtualInputs :=
       [ {| Path := go "b.txt"; Contents := None; IsExecutable := false |} ] |}.

Definition record_c : InputSpec :=
  {| Inputs := [go "c.txt"]; VirtualInputs := [] |}.

(** ** The vocabulary of the properties *)

(** A sequence of runes, each recognised by [p1] (one byte), [p2] (two
    bytes) or [p3] (three bytes). *)
Inductive runes (p1 : ascii -> bool) (p2 : ascii -> ascii -> bool)
    (p3 : ascii -> ascii -> ascii -> bool) : gostring -> Prop :=
| runes_nil : runes p1 p2 p3 []
| runes_one c r :
    p1 c = true -> runes p1 p2 p3 r -> runes p1 p2 p3 (c :: r)
| runes_two c1 c2 r :
    p2 c1 c2 = true -> runes p1 p2 p3 r -> runes p1 p2 p3 (c1 :: c2 :: r)
| runes_three c1 c2 c3 r :
    p3 c1 c2 c3 = true -> runes p1 p2 p3 r ->
    runes p1 p2 p3 (c1 :: c2 :: c3 :: r).

(** A string made of white space only: UTF-8 encodings of runes for which
    unicode.IsSpace holds, one after the other. *)
Definition whitespace (s : gostring) : Prop :=
  runes strings.asciiSpace strings.space2 strings.space3 s.

(** [s] begins with a rune recognised by [p1], [p2] or [p3]. *)
Definition starts_with (p1 : ascii -> bool) (p2 : ascii -> ascii -> bool)
    (p3 : ascii -> ascii -> ascii -> bool) (s : gostring) : bool :=
  match s with
  | [] => false
  | c1 :: r1 =>
      p1 c1
      || match r1 with
         | [] => false
         | c2 :: r2 =>
             p2 c1 c2
             || match r2 with
                | [] => false
                | c3 :: _ => p3 c1 c2 c3
                end
         end
  end.

(** [s] begins with a white-space rune. *)
Definition starts_with_space (s : gostring) : bool :=
  starts_with strings.asciiSpace strings.space2 strings.space3 s.

(** [s] ends with a white-space rune. *)
Definition ends_with_space (s : gostring) : bool :=
  starts_with strings.asciiSpace (fun a b => strings.space2 b a)
    (fun a b c => strings.space3 c b a) (rev s).

(** [s] has no white space at either end. *)
Definition tight (s : gostring) : bool :=
  negb (starts_with_space s) && negb (ends_with_space s).

(** A continuation byte of UTF-8: 10xxxxxx. *)
Definition cont (c : ascii) : bool :=
  (0x80 <=? byte c)%N && (byte c <? 0xc0)%N.

Definition colon : ascii := ":"%char.

(** A blank line, as the loop tests it. *)
Definition blank (txt : gostring) : Prop := strings.TrimSpace txt = [].

Definition isBlank (txt : gostring) : bool :=
  streq (strings.TrimSpace txt) (go "").

(** A line [key: value] with a single colon and a key the tool knows. *)
Definition one_colon_form (txt : gostring) : Prop :=
  exists k v, txt = k ++ colon :: v
    /\ ~ In colon k /\ ~ In colon v
    /\ (strings.TrimSpace k = go "inputs" \/ strings.TrimSpace k = go "path").

(** A line [key: value] with a key the tool knows, whatever the value. *)
Definition key_value_form (txt : gostring) : Prop :=
  exists k v, txt = k ++ colon :: v
    /\ (strings.TrimSpace k = go "inputs" \/ strings.TrimSpace k = go "path").

(** The text before and after the first colon of a line. *)
Fixpoint cut (txt : gostring) : option (gostring * gostring) :=
  match txt with
  | [] => None
  | c :: r =>
      if Ascii.eqb c colon then Some ([], r)
      else match cut r with
           | Some (k, v) => Some (c :: k, v)
           | None => None
           end
  end.

Definition has_colon (s : gostring) : bool :=
  existsb (fun c => Ascii.eqb c colon) s.

(** What a line of a record says. *)
Inductive Entry : Type :=
| InputEntry (path : gostring)
| VirtualEntry (path : gostring).

(** The entry a line [inputs: <path>] or [path: <virtual path>] stands
    for; [None] for any other line. *)
Definition entry_of_line (txt : gostring) : option Entry :=
  match cut txt with
  | Some (k, v) =>
      if has_colon v then None
      else if streq (strings.TrimSpace k) (go "inputs")
           then Some (InputEntry (strings.TrimSpace v))
      else if streq (strings.TrimSpace k) (go "path")
           then Some (VirtualEntry (strings.TrimSpace v))
      else None
  | None => None
  end.

(** A line the batch format allows: blank, or an entry. *)
Definition well_formed_line (txt : gostring) : bool :=
  isBlank txt
  || match entry_of_line txt with Some _ => true | None => false end.

(** The input specification with one more entry. *)
Definition add_entry (s : InputSpec) (e : Entry) : InputSpec :=
  match e with
  | InputEntry p =>
      {| Inputs := Inputs s ++ [p]; VirtualInputs := VirtualInputs s |}
  | VirtualEntry p =>
      {| Inputs := Inputs s;
         VirtualInputs :=
           VirtualInputs s
           ++ [ {| Path := p; Contents := None; IsExecutable := false |} ] |}
  end.

(** The input specification with the entries of the lines [g] added, in
    order; a line that is no entry adds nothing. *)
Fixpoint add_lines (s : InputSpec) (g : list gostring) : InputSpec :=
  match g with
  | [] => s
  | l :: r =>
      match entry_of_line l with
      | Some e => add_lines (add_entry s e) r
      | None => add_lines s r
      end
  end.

(** The input specification a record describes. *)
Definition spec_of_record (g : list gostring) : InputSpec :=
  add_lines InputSpec_zero g.

(** The lines of a batch cut at its blank lines: one group more than there
    are blank lines, some of them possibly empty. *)
Fixpoint groups (lines : list gostring) : list (list gostring) :=
  match lines with
  | [] => [[]]
  | l :: r =>
      if isBlank l then [] :: groups r
      else match groups r with
           | g :: gs => (l :: g) :: gs
           | [] => [[l]]
           end
  end.

Definition nonempty_group (g : list gostring) : bool :=
  match g with [] => false | _ :: _ => true end.

(** The records of a batch: its blank-line-separated groups of lines that
    are not empty. *)
Definition records (lines : list gostring) : list (list gostring) :=
  filter nonempty_group (groups lines).

(** The last line of the batch is blank, so every record is closed. *)
Definition closed_batch (lines : list gostring) : Prop :=
  exists pre b, lines = pre ++ [b] /\ blank b.

(** What a blank line does: hand the pending specification over when it
    is not empty, and start a new one. *)
Definition flush (root : gostring) (st : LoopState) : M LoopState :=
  if InputSpec_empty (is_ st) then ret st
  else ([ComputeMerkleTree root (is_ st)],
        Returned {| is_ := InputSpec_zero;
                    totalRuns := int_add (totalRuns st) 1 |}).

(** The values of the loop's variables before the first line. *)
Definition LoopState_start : LoopState :=
  {| is_ := InputSpec_zero; totalRuns := 0 |}.

(** Reading the groups [gs] with [s] pending, the first group going on
    with [s]: the specifications that are complete and not empty, in order,
    and the one still pending after the last group. *)
Fixpoint handed_over (s : InputSpec) (gs : list (list gostring))
    : list InputSpec * InputSpec :=
  match gs with
  | [] => ([], s)
  | g :: gs' =>
      match gs' with
      | [] => ([], add_lines s g)
      | _ :: _ =>
          let (bs, fin) := handed_over InputSpec_zero gs' in
          (if InputSpec_empty (add_lines s g) then bs
           else add_lines s g :: bs, fin)
      end
  end.

(** A virtual input that carries a path and nothing else. *)
Definition only_path (vi : VirtualInput) : Prop :=
  Contents vi = None /\ IsExecutable vi = false.

(** An input specification whose virtual inputs carry a path and nothing
    else. *)
Definition only_paths (s : InputSpec) : Prop :=
  Forall only_path (VirtualInputs s).

(** A line that is an entry. *)
Definition is_entry (l : gostring) : Prop := entry_of_line l <> None.

(** ** More vocabulary: flags, calls, lines *)

(** The operations whose case in the switch reads --digest before it
    calls the client. *)
Definition needs_digest : list OpType :=
  [ downloadActionResult; downloadBlob; downloadDir; showAction;
    reexecuteAction; checkDeterminism ].

(** The operations whose case in the switch reads --path before it calls
    the client. *)
Definition needs_path : list OpType :=
  [ downloadActionResult; downloadBlob; downloadDir; uploadBlob;
    computeTree ].

(** The flags with another value for --path, for --digest. *)
Definition with_path (f : Flags) (p : gostring) : Flags :=
  {| operation := operation f; digest := digest f; pathPrefix := p;
     inputRoot := inputRoot f; execAttempts := execAttempts f;
     cpuProfFile := cpuProfFile f |}.

Definition with_digest (f : Flags) (d : gostring) : Flags :=
  {| operation := operation f; digest := d; pathPrefix := pathPrefix f;
     inputRoot := inputRoot f; execAttempts := execAttempts f;
     cpuProfFile := cpuProfFile f |}.

(** The calls on the remote client. *)
Definition is_call (e : Event) : bool :=
  match e with
  | ComputeMerkleTree _ _ | DownloadActionResult _ _ | DownloadBlob _ _
  | DownloadDirectory _ _ | ShowAction _ | ReexecuteAction _ _ _
  | CheckDeterminism _ _ _ | UploadBlob _ => true
  | _ => false
  end.

(** The calls a run makes on the remote client, in order. *)
Definition calls (t : list Event) : list Event :=
  collect (fun e => if is_call e then Some e else None) t.

(** The values of the [inputs:] lines of a record, in order, and those of
    its [path:] lines. *)
Definition input_values (g : list gostring) : list gostring :=
  flat_map (fun l => match entry_of_line l with
                     | Some (InputEntry p) => [p]
                     | _ => []
                     end) g.

Definition path_values (g : list gostring) : list gostring :=
  flat_map (fun l => match entry_of_line l with
                     | Some (VirtualEntry p) => [p]
                     | _ => []
                     end) g.

(** &command.VirtualInput{Path: p} *)
Definition path_only (p : gostring) : VirtualInput :=
  {| Path := p; Contents := None; IsExecutable := false |}.

(** The contents of a file written line by line, each line followed by
    the end-of-line sequence [eol]. *)
Definition unlines (eol : gostring) (lines : list gostring) : gostring :=
  List.concat (map (fun l => l ++ eol) lines).

Definition CRLF : gostring := [bufio.cr; bufio.newline].

Definition ends_with_cr (l : gostring) : bool :=
  match rev l with
  | c :: _ => Ascii.eqb c bufio.cr
  | [] => false
  end.

(** A line a text file can hold as it is: no line feed in it, no carriage
    return at its end, and short enough for the scanner even with a
    carriage return added. *)
Definition plain_line (l : gostring) : Prop :=
  ~ In bufio.newline l /\ ends_with_cr l = false
  /\ bufio.fits (l ++ [bufio.cr]) = true.

(** ComputeTree once the file is open and holds the lines [lines]. *)
Definition ComputeTree_on (root : gostring) (lines : list gostring)
    : M unit :=
  bind (ComputeTree_loop root lines LoopState_start)
       (fun st => emit (LogInfoRan (totalRuns st))).

(** What the switch of main does for an operation other than
    compute_tree: nothing, or one call on the client other than a tree
    build, or, for download_blob and show_action, one such call and then
    one write to standard output, or, for reexecute_action, the call and
    then what it writes to the sink. *)
Inductive switch_trace (f : Flags) : list Event -> Prop :=
| switch_nothing : switch_trace f []
| switch_call c :
    is_call c = true -> builds [c] = [] -> switch_trace f [c]
| switch_call_write c res :
    is_call c = true -> builds [c] = [] ->
    operation f = downloadBlob \/ operation f = showAction ->
    switch_trace f [c; StdoutWrite res]
| switch_call_stream c chunks :
    is_call c = true -> builds [c] = [] ->
    operation f = reexecuteAction ->
    switch_trace f (c :: map (OutErr_write SystemOutErr) chunks).

(** The pieces of standard output among what is written to a sink. *)
Definition stdout_chunks (cs : list Chunk) : list gostring :=
  flat_map (fun c => match c with ToStdout b => [b] | ToStderr _ => [] end)
    cs.

(** A world in which the re-executed action writes "out" to its standard
    output, then "warn" to its standard error, then "put" to its standard
    output, and succeeds. *)
Definition world_streaming : World :=
  {| os_Create := fun _ => None;
     pprof_StartCPUProfile := fun _ => None;
     NewClientFromFlags := None;
     os_Open := fun _ => None;
     tool_DownloadActionResult := fun _ _ => None;
     tool_DownloadBlob := fun _ _ => inl (go "");
     tool_DownloadDirectory := fun _ _ => None;
     tool_ShowAction := fun _ => inl (go "action");
     tool_ReexecuteAction :=
       fun _ _ =>
         {| streamed := [ToStdout (go "out"); ToStderr (go "warn");
                         ToStdout (go "put")];
            reexecution_error := None |};
     tool_CheckDeterminism := fun _ _ _ => None;
     tool_UploadBlob := fun _ => None |}.

(** A world in which every call on the client fails with [err], the file
    spec.txt holding [data]. *)
Definition world_down (data err : gostring) : World :=
  {| os_Create := fun _ => None;
     pprof_StartCPUProfile := fun _ => None;
     NewClientFromFlags := None;
     os_Open := fun p => if streq p (go "spec.txt") then Some data else None;
     tool_DownloadActionResult := fun _ _ => Some err;
     tool_DownloadBlob := fun _ _ => inr err;
     tool_DownloadDirectory := fun _ _ => Some err;
     tool_ShowAction := fun _ => inr err;
     tool_ReexecuteAction :=
       fun _ _ => {| streamed := []; reexecution_error := Some err |};
     tool_CheckDeterminism := fun _ _ _ => Some err;
     tool_UploadBlob := fun _ => Some err |}.

(** A world in which the profile file cannot be created. *)
Definition world_readonly : World :=
  {| os_Create := fun _ => Some (go "permission denied");
     pprof_StartCPUProfile := fun _ => None;
     NewClientFromFlags := None;
     os_Open := fun _ => None;
     tool_DownloadActionResult := fun _ _ => None;
     tool_DownloadBlob := fun _ _ => inl (go "");
     tool_DownloadDirectory := fun _ _ => None;
     tool_ShowAction := fun _ => inl (go "action");
     tool_ReexecuteAction :=
       fun _ _ => {| streamed := []; reexecution_error := None |};
     tool_CheckDeterminism := fun _ _ _ => None;
     tool_UploadBlob := fun _ => None |}.

(** The flags of [remotetool --operation=show_action --digest=abc/3
    --pprof_file=cpu.prof]. *)
Definition flags_profiled : Flags :=
  {| operation := showAction; digest := go "abc/3"; pathPrefix := go "";
     inputRoot := go ""; execAttempts := 10; cpuProfFile := go "cpu.prof" |}.

(** A line of MaxScanTokenSize bytes, and a batch that holds it after a
    first record and before a line without a colon. *)
Definition long_line : gostring :=
  repeat "x"%char (N.to_nat bufio.MaxScanTokenSize).

Definition truncated_batch : gostring :=
  unlines LF [go "inputs: a.txt"; go ""] ++ long_line ++ LF
  ++ go "inputs b.txt".

(** * Properties *)

(** ** The library model on a few strings *)

Example TrimSpace_ascii :
  strings.TrimSpace (go "  inputs ") = go "inputs".
Proof. reflexivity. Qed.

(** Tab, carriage return, NBSP (C2 A0) and the ideographic space
    (E3 80 80) are white space; the inner space stays. *)
Example TrimSpace_unicode :
  strings.TrimSpace
    ([ascii_of_N 0x09; ascii_of_N 0xc2; ascii_of_N 0xa0] ++ go "a b"
     ++ [ascii_of_N 0xe3; ascii_of_N 0x80; ascii_of_N 0x80; ascii_of_N 0x0d])
  = go "a b".
Proof. reflexivity. Qed.

(** A lone continuation byte is no rune, hence no white space. *)
Example TrimSpace_lone_continuation :
  strings.TrimSpace ([ascii_of_N 0xa0] ++ go "a") = [ascii_of_N 0xa0] ++ go "a".
Proof. reflexivity. Qed.

Example Split_empty : strings.Split (go "") colon = [go ""].
Proof. reflexivity. Qed.

Example Split_one : strings.Split (go "inputs: a.txt") colon
                    = [go "inputs"; go " a.txt"].
Proof. reflexivity. Qed.

Example Split_two : strings.Split (go "a:b:") colon = [go "a"; go "b"; go ""].
Proof. reflexivity. Qed.

(** Lines end at the line feed, with or without a carriage return before
    it; a last line needs no line feed; no empty line follows the last
    line feed. *)
Example scanLines_lines :
  bufio.scanLines
    (go "a" ++ LF ++ go "b" ++ [bufio.cr] ++ LF ++ LF ++ go "c")
  = [go "a"; go "b"; go ""; go "c"]
  /\ bufio.scanLines (go "a" ++ LF) = [go "a"]
  /\ bufio.scanLines (go "") = [].
Proof. repeat split. Qed.

(** ** Equality of strings *)

Lemma streq_true (a b : gostring) : streq a b = true <-> a = b.
Proof.
  unfold streq. destruct (gostring_dec a b); split; congruence.
Qed.

Lemma streq_false (a b : gostring) : streq a b = false <-> a <> b.
Proof.
  unfold streq. destruct (gostring_dec a b); split; congruence.
Qed.

Lemma streq_refl (a : gostring) : streq a a = true.
Proof. now apply streq_true. Qed.

(** ** Computations *)

Lemma bind_ret {A B : Type} (a : A) (k : A -> M B) : bind (ret a) k = k a.
Proof. unfold bind, ret. now destruct (k a). Qed.


Lemma bind_ext {A B : Type} (m : M A) (k k' : A -> M B) :
  (forall a, k a = k' a) -> bind m k = bind m k'.
Proof.
  intros H. destruct m as [t [a | msg | msg]]; cbn; try reflexivity.
  now rewrite H.
Qed.



(** ** Induction on the length of a string *)

Lemma length_ind {A : Type} (P : list A -> Prop) :
  (forall s, (forall s', List.length s' < List.length s -> P s') -> P s) ->
  forall s, P s.
Proof.
  intros step s.
  remember (List.length s) as n eqn:Hn.
  revert s Hn. induction n as [n IH] using lt_wf_ind.
  intros s ->. apply step. intros s' Hlt. now apply (IH (List.length s')).
Qed.

(** ** Trimming runes, whatever the runes *)

Section Runes.

Variable p1 : ascii -> bool.
Variable p2 : ascii -> ascii -> bool.
Variable p3 : ascii -> ascii -> ascii -> bool.

Let trimR := strings.trimRunes p1 p2 p3.
Let runesR := runes p1 p2 p3.
Let startsR := starts_with p1 p2 p3.

Lemma runes_app (a b : gostring) :
  runesR a -> runesR b -> runesR (a ++ b).
Proof.
  intros Ha Hb. induction Ha; cbn; auto.
  - now apply runes_one.
  - now apply runes_two.
  - now apply runes_three.
Qed.

Lemma trimRunes_decompose (s : gostring) :
  exists w, runesR w /\ s = w ++ trimR s.
Proof.
  induction s as [s IH] using length_ind.
  destruct s as [| c1 r1]; [exists []; split; [constructor | reflexivity] |].
  cbn. destruct (p1 c1) eqn:E1.
  { destruct (IH r1) as (w & Hw & Heq); [cbn; lia |].
    exists (c1 :: w). split; [now apply runes_one |]. cbn. now f_equal. }
  destruct r1 as [| c2 r2]; [exists []; split; [constructor | reflexivity] |].
  destruct (p2 c1 c2) eqn:E2.
  { destruct (IH r2) as (w & Hw & Heq); [cbn; lia |].
    exists (c1 :: c2 :: w). split; [now apply runes_two |].
    cbn. now do 2 f_equal. }
  destruct r2 as [| c3 r3]; [exists []; split; [constructor | reflexivity] |].
  destruct (p3 c1 c2 c3) eqn:E3.
  { destruct (IH r3) as (w & Hw & Heq); [cbn; lia |].
    exists (c1 :: c2 :: c3 :: w). split; [now apply runes_three |].
    cbn. now do 3 f_equal. }
  exists []. split; [constructor | reflexivity].
Qed.

Lemma trimRunes_nil_runes (s : gostring) : trimR s = [] -> runesR s.
Proof.
  intros H. destruct (trimRunes_decompose s) as (w & Hw & Heq).
  rewrite H, app_nil_r in Heq. now subst.
Qed.

Lemma trimRunes_stuck (s : gostring) : startsR (trimR s) = false.
Proof.
  induction s as [s IH] using length_ind.
  destruct s as [| c1 r1]; [reflexivity |].
  cbn. destruct (p1 c1) eqn:E1; [apply IH; cbn; lia |].
  destruct r1 as [| c2 r2]; [cbn; now rewrite E1 |].
  destruct (p2 c1 c2) eqn:E2; [apply IH; cbn; lia |].
  destruct r2 as [| c3 r3]; [cbn; now rewrite E1, E2 |].
  destruct (p3 c1 c2 c3) eqn:E3; [apply IH; cbn; lia |].
  cbn. now rewrite E1, E2, E3.
Qed.

Lemma trimRunes_fixed (s : gostring) : startsR s = false -> trimR s = s.
Proof.
  destruct s as [| c1 r1]; [reflexivity |].
  cbn. destruct (p1 c1); [discriminate |].
  destruct r1 as [| c2 r2]; [reflexivity |].
  destruct (p2 c1 c2); [discriminate |].
  destruct r2 as [| c3 r3]; [reflexivity |].
  now destruct (p3 c1 c2 c3).
Qed.

Lemma starts_with_app (s z : gostring) :
  startsR s = true -> startsR (s ++ z) = true.
Proof.
  destruct s as [| c1 r1]; [discriminate |].
  cbn. destruct (p1 c1); [reflexivity |].
  destruct r1 as [| c2 r2]; [discriminate |].
  cbn. destruct (p2 c1 c2); [reflexivity |].
  destruct r2 as [| c3 r3]; [discriminate |].
  cbn. now destruct (p3 c1 c2 c3).
Qed.

Hypothesis two_not_one : forall a b, p2 a b = true -> p1 a = false.
Hypothesis three_not_one : forall a b c, p3 a b c = true -> p1 a = false.
Hypothesis three_not_two : forall a b c, p3 a b c = true -> p2 a b = false.

Lemma trimRunes_app (w s : gostring) :
  runesR w -> trimR (w ++ s) = trimR s.
Proof.
  intros Hw. induction Hw as [| c r H1 Hr IH | c1 c2 r H2 Hr IH
                              | c1 c2 c3 r H3 Hr IH]; cbn.
  - reflexivity.
  - now rewrite H1.
  - now rewrite (two_not_one _ _ H2), H2.
  - now rewrite (three_not_one _ _ _ H3), (three_not_two _ _ _ H3), H3.
Qed.

End Runes.

(** Reading a sequence of runes backwards. *)
Lemma runes_rev p1 p2 p3 (s : gostring) :
  runes p1 p2 p3 s ->
  runes p1 (fun a b => p2 b a) (fun a b c => p3 c b a) (rev s).
Proof.
  intros H. induction H; cbn.
  - constructor.
  - apply runes_app; [assumption |]. apply runes_one; [assumption | constructor].
  - rewrite <- app_assoc. apply runes_app; [assumption |].
    cbn. apply runes_two; [assumption | constructor].
  - rewrite <- !app_assoc. apply runes_app; [assumption |].
    cbn. apply runes_three; [assumption | constructor].
Qed.

(** ** White space *)

Ltac bytes :=
  unfold strings.asciiSpace, strings.space2, strings.space3, cont;
  cbv zeta;
  repeat (progress rewrite ?andb_true_iff, ?orb_true_iff, ?andb_false_iff,
            ?orb_false_iff, ?N.eqb_eq, ?N.eqb_neq, ?N.leb_le, ?N.ltb_lt,
            ?N.leb_gt, ?N.ltb_ge);
  intros; lia.

Lemma asciiSpace_lead c : strings.asciiSpace c = true -> cont c = false.
Proof. bytes. Qed.

Lemma space2_lead a b : strings.space2 a b = true -> cont a = false.
Proof. bytes. Qed.

Lemma space2_cont a b : strings.space2 a b = true -> cont b = true.
Proof. bytes. Qed.

Lemma space3_lead a b c : strings.space3 a b c = true -> cont a = false.
Proof. bytes. Qed.

Lemma space3_cont2 a b c : strings.space3 a b c = true -> cont b = true.
Proof. bytes. Qed.

Lemma space3_cont3 a b c : strings.space3 a b c = true -> cont c = true.
Proof. bytes. Qed.

Lemma space2_not_ascii a b :
  strings.space2 a b = true -> strings.asciiSpace a = false.
Proof. bytes. Qed.

Lemma space3_not_ascii a b c :
  strings.space3 a b c = true -> strings.asciiSpace a = false.
Proof. bytes. Qed.

Lemma space3_not_space2 a b c :
  strings.space3 a b c = true -> strings.space2 a b = false.
Proof. bytes. Qed.

Lemma space2_rev_not_ascii a b :
  strings.space2 b a = true -> strings.asciiSpace a = false.
Proof. bytes. Qed.

Lemma space3_rev_not_ascii a b c :
  strings.space3 c b a = true -> strings.asciiSpace a = false.
Proof. bytes. Qed.

Lemma space3_rev_not_space2 a b c :
  strings.space3 c b a = true -> strings.space2 b a = false.
Proof. bytes. Qed.

Lemma byte_colon : byte colon = 58%N.
Proof. reflexivity. Qed.

Lemma asciiSpace_not_colon c : strings.asciiSpace c = true -> c <> colon.
Proof.
  intros H ->. revert H. unfold strings.asciiSpace. now rewrite byte_colon.
Qed.

Lemma cont_not_colon c : cont c = true -> c <> colon.
Proof. intros H ->. revert H. unfold cont. now rewrite byte_colon. Qed.

Lemma space2_first_not_colon a b : strings.space2 a b = true -> a <> colon.
Proof.
  intros H ->. revert H. unfold strings.space2. now rewrite byte_colon.
Qed.

Lemma space3_first_not_colon a b c :
  strings.space3 a b c = true -> a <> colon.
Proof.
  intros H ->. revert H. unfold strings.space3. now rewrite byte_colon.
Qed.

Lemma whitespace_no_colon (w : gostring) : whitespace w -> ~ In colon w.
Proof.
  intros H. induction H as [| c r H1 Hr IH | c1 c2 r H2 Hr IH
                            | c1 c2 c3 r H3 Hr IH]; cbn.
  - tauto.
  - intros [E | E]; [now apply (asciiSpace_not_colon _ H1) | tauto].
  - intros [E | [E | E]].
    + now apply (space2_first_not_colon _ _ H2).
    + now apply (cont_not_colon _ (space2_cont _ _ H2)).
    + tauto.
  - intros [E | [E | [E | E]]].
    + now apply (space3_first_not_colon _ _ _ H3).
    + now apply (cont_not_colon _ (space3_cont2 _ _ _ H3)).
    + now apply (cont_not_colon _ (space3_cont3 _ _ _ H3)).
    + tauto.
Qed.

Lemma whitespace_app (a b : gostring) :
  whitespace a -> whitespace b -> whitespace (a ++ b).
Proof. apply runes_app. Qed.

(** White space starts with a byte that is no continuation byte. *)
Lemma whitespace_head_lead c (w : gostring) :
  whitespace (c :: w) -> cont c = false.
Proof.
  intros H. inversion H; subst.
  - now apply asciiSpace_lead.
  - eapply space2_lead; eassumption.
  - eapply space3_lead; eassumption.
Qed.

(** White space put after a string that does not begin with white space
    does not make it begin with white space. *)
Lemma starts_with_space_app (core w : gostring) :
  core <> [] -> starts_with_space core = false -> whitespace w ->
  starts_with_space (core ++ w) = false.
Proof.
  intros Hne Hc Hw.
  destruct w as [| x w']; [now rewrite app_nil_r |].
  pose proof (whitespace_head_lead _ _ Hw) as Hx.
  assert (N2 : forall a, strings.space2 a x = false).
  { intros a. destruct (strings.space2 a x) eqn:E; [| reflexivity].
    apply space2_cont in E. congruence. }
  assert (N3 : forall a b, strings.space3 a x b = false).
  { intros a b. destruct (strings.space3 a x b) eqn:E; [| reflexivity].
    apply space3_cont2 in E. congruence. }
  assert (N3' : forall a b, strings.space3 a b x = false).
  { intros a b. destruct (strings.space3 a b x) eqn:E; [| reflexivity].
    apply space3_cont3 in E. congruence. }
  unfold starts_with_space in *.
  destruct core as [| c1 [| c2 [| c3 r]]]; [congruence | | |]; cbn in *.
  - apply orb_false_iff in Hc as [-> _]. rewrite N2. cbn.
    destruct w'; [reflexivity | apply N3].
  - apply orb_false_iff in Hc as [-> Hc].
    apply orb_false_iff in Hc as [-> _]. cbn. apply N3'.
  - exact Hc.
Qed.

Lemma TrimLeftSpace_app (w s : gostring) :
  whitespace w -> strings.TrimLeftSpace (w ++ s) = strings.TrimLeftSpace s.
Proof.
  apply trimRunes_app.
  - exact space2_not_ascii.
  - exact space3_not_ascii.
  - exact space3_not_space2.
Qed.

Lemma TrimRightSpace_app (s w : gostring) :
  whitespace w -> strings.TrimRightSpace (s ++ w) = strings.TrimRightSpace s.
Proof.
  intros Hw. unfold strings.TrimRightSpace. rewrite rev_app_distr.
  f_equal. apply trimRunes_app.
  - exact space2_rev_not_ascii.
  - exact space3_rev_not_ascii.
  - exact space3_rev_not_space2.
  - now apply runes_rev.
Qed.

Lemma TrimLeftSpace_fixed (s : gostring) :
  starts_with_space s = false -> strings.TrimLeftSpace s = s.
Proof. apply trimRunes_fixed. Qed.

Lemma TrimRightSpace_fixed (s : gostring) :
  ends_with_space s = false -> strings.TrimRightSpace s = s.
Proof.
  intros H. unfold strings.TrimRightSpace.
  rewrite trimRunes_fixed by exact H. apply rev_involutive.
Qed.

(** A string of white space is blank. *)
Lemma TrimSpace_whitespace (w : gostring) :
  whitespace w -> strings.TrimSpace w = [].
Proof.
  intros Hw. unfold strings.TrimSpace.
  rewrite <- (app_nil_r w), TrimLeftSpace_app by assumption. reflexivity.
Qed.

(** A blank string is a string of white space. *)
Lemma TrimSpace_nil_whitespace (s : gostring) :
  strings.TrimSpace s = [] -> whitespace s.
Proof.
  unfold strings.TrimSpace. intros H.
  destruct (trimRunes_decompose strings.asciiSpace strings.space2
              strings.space3 s) as (w & Hw & Heq).
  fold (strings.TrimLeftSpace s) in Heq.
  rewrite Heq. apply whitespace_app; [exact Hw |].
  unfold strings.TrimRightSpace in H.
  apply (f_equal (@rev ascii)) in H. rewrite rev_involutive in H. cbn in H.
  apply trimRunes_nil_runes in H. apply runes_rev in H.
  rewrite rev_involutive in H. exact H.
Qed.

(** What TrimRightSpace takes off is white space at the end. *)
Lemma TrimRightSpace_suffix (s : gostring) :
  exists w, whitespace w /\ s = strings.TrimRightSpace s ++ w.
Proof.
  destruct (trimRunes_decompose strings.asciiSpace
              (fun a b => strings.space2 b a)
              (fun a b c => strings.space3 c b a) (rev s))
    as (w & Hw & Heq).
  exists (rev w). split.
  - exact (runes_rev _ _ _ _ Hw).
  - unfold strings.TrimRightSpace. rewrite <- rev_app_distr, <- Heq.
    now rewrite rev_involutive.
Qed.

(** What TrimSpace returns has no white space at either end. *)
Lemma TrimSpace_tight (s : gostring) : tight (strings.TrimSpace s) = true.
Proof.
  unfold tight, strings.TrimSpace.
  apply andb_true_iff. split; apply negb_true_iff.
  - destruct (starts_with_space
                (strings.TrimRightSpace (strings.TrimLeftSpace s))) eqn:E;
      [| reflexivity].
    destruct (TrimRightSpace_suffix (strings.TrimLeftSpace s))
      as (w & _ & Heq).
    apply (starts_with_app _ _ _ _ w) in E. rewrite <- Heq in E.
    unfold strings.TrimLeftSpace in E. now rewrite trimRunes_stuck in E.
  - unfold ends_with_space, strings.TrimRightSpace.
    rewrite rev_involutive. apply trimRunes_stuck.
Qed.

(** What TrimSpace takes off is white space at the two ends. *)
Lemma TrimSpace_decompose (s : gostring) :
  exists w1 w2,
    whitespace w1 /\ whitespace w2 /\ s = w1 ++ strings.TrimSpace s ++ w2.
Proof.
  destruct (trimRunes_decompose strings.asciiSpace strings.space2
              strings.space3 s) as (w1 & H1 & Heq).
  fold (strings.TrimLeftSpace s) in Heq.
  destruct (TrimRightSpace_suffix (strings.TrimLeftSpace s))
    as (w2 & H2 & Heq2).
  exists w1, w2. repeat split; try assumption.
  unfold strings.TrimSpace. now rewrite <- Heq2.
Qed.

(** TrimSpace takes the white space off both ends, and nothing else. *)
Lemma TrimSpace_strip (w1 core w2 : gostring) :
  whitespace w1 -> whitespace w2 -> tight core = true ->
  strings.TrimSpace (w1 ++ core ++ w2) = core.
Proof.
  intros H1 H2 Ht. unfold tight in Ht.
  apply andb_true_iff in Ht as [Hs He].
  apply negb_true_iff in Hs. apply negb_true_iff in He.
  unfold strings.TrimSpace. rewrite TrimLeftSpace_app by assumption.
  destruct core as [| c core'].
  - cbn. rewrite <- (app_nil_r w2), TrimLeftSpace_app by assumption.
    reflexivity.
  - rewrite TrimLeftSpace_fixed
      by (apply starts_with_space_app; [discriminate | assumption..]).
    rewrite TrimRightSpace_app by assumption.
    now apply TrimRightSpace_fixed.
Qed.

(** ** Cutting a line at its colons *)

Lemma has_colon_true (s : gostring) : has_colon s = true <-> In colon s.
Proof.
  unfold has_colon. rewrite existsb_exists. split.
  - intros (c & Hin & E). apply Ascii.eqb_eq in E. now subst.
  - intros H. exists colon. split; [assumption | apply Ascii.eqb_refl].
Qed.

Lemma has_colon_false (s : gostring) : has_colon s = false <-> ~ In colon s.
Proof.
  rewrite <- has_colon_true. destruct (has_colon s); split; congruence.
Qed.

Lemma cut_None (txt : gostring) : cut txt = None <-> ~ In colon txt.
Proof.
  induction txt as [| c r IH]; cbn.
  - tauto.
  - destruct (Ascii.eqb_spec c colon) as [-> | Hc].
    + split; [discriminate | tauto].
    + destruct (cut r) as [[k v] |].
      * split; [discriminate |]. intros H. exfalso.
        assert (~ In colon r) as Hr by tauto.
        apply IH in Hr. discriminate.
      * split; [| reflexivity]. intros _ [E | E]; [congruence |].
        now apply (proj1 IH).
Qed.

Lemma cut_Some (txt k v : gostring) :
  cut txt = Some (k, v) <-> txt = k ++ colon :: v /\ ~ In colon k.
Proof.
  revert k. induction txt as [| c r IH]; intros k; cbn.
  - split; [discriminate |]. intros [E _]. now destruct k.
  - destruct (Ascii.eqb_spec c colon) as [-> | Hc].
    + split.
      * intros E. injection E as <- <-. cbn. tauto.
      * intros [E Hk]. destruct k as [| c' k']; cbn in *.
        -- now injection E as ->.
        -- injection E as <- _. tauto.
    + destruct (cut r) as [[k0 v0] |] eqn:Ecut.
      * split.
        -- intros E. injection E as <- <-.
           destruct (proj1 (IH k0) eq_refl) as [-> Hk0]. cbn.
           split; [reflexivity |]. intros [E | E]; [congruence | tauto].
        -- intros [E Hk]. destruct k as [| c' k']; cbn in *.
           ++ injection E as -> _. congruence.
           ++ injection E as <- E.
              assert (Some (k0, v0) = Some (k', v)) as E'
                by (apply IH; tauto).
              now injection E' as -> ->.
      * split; [discriminate |]. intros [E Hk]. exfalso.
        destruct k as [| c' k']; cbn in *.
        -- injection E as -> _. congruence.
        -- injection E as <- E.
           assert (None = Some (k', v)) by (apply IH; tauto). discriminate.
Qed.

Lemma Split_not_nil (s : gostring) sep : strings.Split s sep <> [].
Proof.
  destruct s as [| c r]; cbn; [discriminate |].
  destruct (Ascii.eqb c sep); [discriminate |].
  destruct (strings.Split r sep); discriminate.
Qed.

Lemma Split_cut (txt : gostring) :
  strings.Split txt colon =
  match cut txt with
  | Some (k, v) => k :: strings.Split v colon
  | None => [txt]
  end.
Proof.
  induction txt as [| c r IH]; cbn; [reflexivity |].
  destruct (Ascii.eqb c colon); [reflexivity |].
  rewrite IH. now destruct (cut r) as [[k v] |].
Qed.

Lemma Split_no_colon (v : gostring) :
  ~ In colon v -> strings.Split v colon = [v].
Proof.
  intros H. rewrite Split_cut. apply cut_None in H. now rewrite H.
Qed.

(** One colon, two pieces. *)
Lemma Split_one_colon (k v : gostring) :
  ~ In colon k -> ~ In colon v ->
  strings.Split (k ++ colon :: v) colon = [k; v].
Proof.
  intros Hk Hv. rewrite Split_cut.
  assert (cut (k ++ colon :: v) = Some (k, v)) as -> by now apply cut_Some.
  now rewrite Split_no_colon.
Qed.

Lemma Split_length_colon (v : gostring) :
  In colon v -> 2 <= List.length (strings.Split v colon).
Proof.
  intros H. rewrite Split_cut.
  destruct (cut v) as [[k v'] |] eqn:E.
  - cbn. pose proof (Split_not_nil v' colon).
    destruct (strings.Split v' colon); [congruence | cbn; lia].
  - apply cut_None in E. tauto.
Qed.

(** ** One line of the loop *)

Lemma nonempty_test (s : InputSpec) :
  negb (List.length (Inputs s) =? 0)
  || negb (List.length (VirtualInputs s) =? 0)
  = negb (InputSpec_empty s).
Proof.
  unfold InputSpec_empty. now destruct (Inputs s), (VirtualInputs s).
Qed.

Lemma ComputeTree_body_blank root st txt :
  isBlank txt = true -> ComputeTree_body root st txt = flush root st.
Proof.
  intros H. unfold ComputeTree_body, flush. fold (isBlank txt). rewrite H.
  rewrite nonempty_test. now destruct (InputSpec_empty (is_ st)).
Qed.

Lemma ComputeTree_body_entry root st txt :
  isBlank txt = false ->
  ComputeTree_body root st txt =
  match entry_of_line txt with
  | Some e =>
      ret {| is_ := add_entry (is_ st) e; totalRuns := totalRuns st |}
  | None => log_Exitf (go "broken line " ++ txt)
  end.
Proof.
  intros H. unfold ComputeTree_body, entry_of_line. fold (isBlank txt).
  rewrite H. fold colon. rewrite Split_cut.
  destruct (cut txt) as [[k v] |] eqn:Ecut; [| reflexivity].
  destruct (has_colon v) eqn:Ev.
  - apply has_colon_true, Split_length_colon in Ev.
    cbn [List.length]. 
    destruct (List.length (strings.Split v colon)) as [| [| n]]; 
      [lia | lia | reflexivity].
  - apply has_colon_false in Ev. rewrite Split_no_colon by assumption.
    cbn [List.length Nat.eqb negb nth].
    destruct (streq (strings.TrimSpace k) (go "inputs")); [reflexivity |].
    destruct (streq (strings.TrimSpace k) (go "path")); reflexivity.
Qed.

(** ** The loop *)

Lemma ComputeTree_loop_app root (a b : list gostring) st :
  ComputeTree_loop root (a ++ b) st =
  bind (ComputeTree_loop root a st) (ComputeTree_loop root b).
Proof.
  revert st. induction a as [| l r IH]; intros st; cbn.
  - now destruct (ComputeTree_loop root b st).
  - destruct (ComputeTree_body root st l) as [t [st' | msg | msg]];
      cbn; try reflexivity.
    rewrite IH.
    destruct (ComputeTree_loop root r st') as [t1 [st1 | msg | msg]];
      cbn; try reflexivity.
    destruct (ComputeTree_loop root b st1) as [t2 o2].
    now rewrite app_assoc.
Qed.

Lemma collect_app {X : Type} (sel : Event -> option X) (a b : list Event) :
  collect sel (a ++ b) = collect sel a ++ collect sel b.
Proof.
  induction a as [| e r IH]; cbn; [reflexivity |].
  destruct (sel e); cbn; now rewrite IH.
Qed.

Lemma builds_app (a b : list Event) : builds (a ++ b) = builds a ++ builds b.
Proof. apply collect_app. Qed.

Lemma stdout_app (a b : list Event) : stdout (a ++ b) = stdout a ++ stdout b.
Proof. apply collect_app. Qed.

Lemma isBlank_true (txt : gostring) : isBlank txt = true <-> blank txt.
Proof. apply streq_true. Qed.

Lemma isBlank_false (txt : gostring) : isBlank txt = false <-> ~ blank txt.
Proof. apply streq_false. Qed.

Lemma InputSpec_empty_zero (s : InputSpec) :
  InputSpec_empty s = true -> s = InputSpec_zero.
Proof.
  destruct s as [i v]. unfold InputSpec_empty. cbn.
  destruct i, v; now try discriminate.
Qed.

(** A second blank line after a blank line changes nothing. *)
Lemma flush_flush {B : Type} root st (k : LoopState -> M B) :
  bind (flush root st) (fun st' => bind (flush root st') k)
  = bind (flush root st) k.
Proof.
  unfold flush. destruct (InputSpec_empty (is_ st)) eqn:E; cbn.
  - rewrite E. cbn. now destruct (k st).
  - now destruct (k _).
Qed.

(** The trace of one line: nothing, or one build of a specification that
    is not empty. *)
Lemma ComputeTree_body_trace root st txt :
  trace (ComputeTree_body root st txt) = []
  \/ (trace (ComputeTree_body root st txt) = [ComputeMerkleTree root (is_ st)]
      /\ InputSpec_empty (is_ st) = false).
Proof.
  destruct (isBlank txt) eqn:E.
  - rewrite ComputeTree_body_blank by assumption. unfold flush.
    destruct (InputSpec_empty (is_ st)); cbn; auto.
  - rewrite ComputeTree_body_entry by assumption.
    destruct (entry_of_line txt); cbn; auto.
Qed.

Lemma ComputeTree_loop_builds_nonempty root lines st :
  Forall (fun s => InputSpec_empty s = false)
    (builds (trace (ComputeTree_loop root lines st))).
Proof.
  revert st. induction lines as [| l r IH]; intros st; cbn; [constructor |].
  pose proof (ComputeTree_body_trace root st l) as Ht.
  destruct (ComputeTree_body root st l) as [t [st' | msg | msg]]; cbn in *.
  - specialize (IH st').
    destruct (ComputeTree_loop root r st') as [t' o]. cbn in *.
    rewrite builds_app. apply Forall_app. split; [| assumption].
    destruct Ht as [-> | [-> Hne]]; cbn; auto.
  - destruct Ht as [-> | [-> Hne]]; cbn; auto.
  - destruct Ht as [-> | [-> Hne]]; cbn; auto.
Qed.

(** C4: in the loop of ComputeTree a blank line starts a tree build exactly
    when the pending InputSpec has an input or a virtual input; no build is
    ever started for an empty InputSpec; and a blank line that follows a
    blank line changes nothing. *)
Theorem C4_blank_line_builds_iff_nonempty :
  forall root st txt, blank txt ->
    (InputSpec_empty (is_ st) = true ->
       ComputeTree_body root st txt = ([], Returned st))
    /\ (InputSpec_empty (is_ st) = false ->
          ComputeTree_body root st txt =
          ([ComputeMerkleTree root (is_ st)],
           Returned {| is_ := InputSpec_zero;
                       totalRuns := int_add (totalRuns st) 1 |}))
    /\ (forall lines st0,
          Forall (fun s => InputSpec_empty s = false)
            (builds (trace (ComputeTree_loop root lines st0))))
    /\ (forall txt' pre post st0, blank txt' ->
          ComputeTree_loop root (pre ++ txt :: txt' :: post) st0
          = ComputeTree_loop root (pre ++ txt :: post) st0).
Proof.
  intros root st txt Hb. apply isBlank_true in Hb.
  repeat split.
  - intros E. rewrite ComputeTree_body_blank by assumption.
    unfold flush. now rewrite E.
  - intros E. rewrite ComputeTree_body_blank by assumption.
    unfold flush. now rewrite E.
  - intros lines st0. apply ComputeTree_loop_builds_nonempty.
  - intros txt' pre post st0 Hb'. apply isBlank_true in Hb'.
    rewrite !ComputeTree_loop_app. apply bind_ext.
    intros st1. cbn.
    rewrite ComputeTree_body_blank by assumption.
    etransitivity; [| apply flush_flush].
    apply bind_ext. intros st2.
    now rewrite ComputeTree_body_blank by assumption.
Qed.

Lemma C4_witness :
  blank (go "  ")
  /\ ComputeTree_body (go "root")
       {| is_ := {| Inputs := [go "a.txt"]; VirtualInputs := [] |};
          totalRuns := 0 |} (go "  ")
     = ([ComputeMerkleTree (go "root")
           {| Inputs := [go "a.txt"]; VirtualInputs := [] |}],
        Returned {| is_ := InputSpec_zero; totalRuns := int_add 0 1 |}).
Proof.
  split; [reflexivity |].
  apply (C4_blank_line_builds_iff_nonempty (go "root")
           {| is_ := {| Inputs := [go "a.txt"]; VirtualInputs := [] |};
              totalRuns := 0 |} (go "  ")); reflexivity.
Defined.

(** ** Entries *)

Lemma colon_line_not_blank (k v : gostring) : isBlank (k ++ colon :: v) = false.
Proof.
  apply isBlank_false. intros H.
  apply TrimSpace_nil_whitespace, whitespace_no_colon in H.
  apply H, in_or_app. right. now left.
Qed.

Lemma entry_of_line_one_colon (k v : gostring) :
  ~ In colon k -> ~ In colon v ->
  entry_of_line (k ++ colon :: v) =
  if streq (strings.TrimSpace k) (go "inputs")
  then Some (InputEntry (strings.TrimSpace v))
  else if streq (strings.TrimSpace k) (go "path")
       then Some (VirtualEntry (strings.TrimSpace v))
       else None.
Proof.
  intros Hk Hv. unfold entry_of_line.
  assert (cut (k ++ colon :: v) = Some (k, v)) as -> by now apply cut_Some.
  apply has_colon_false in Hv. now rewrite Hv.
Qed.

Lemma entry_of_line_Some (txt : gostring) :
  entry_of_line txt <> None <-> one_colon_form txt.
Proof.
  split.
  - unfold entry_of_line. intros H.
    destruct (cut txt) as [[k v] |] eqn:Ecut; [| congruence].
    apply cut_Some in Ecut as [-> Hk].
    destruct (has_colon v) eqn:Ev; [congruence |].
    apply has_colon_false in Ev.
    exists k, v. repeat split; try assumption.
    destruct (streq (strings.TrimSpace k) (go "inputs")) eqn:E1.
    + left. now apply streq_true.
    + destruct (streq (strings.TrimSpace k) (go "path")) eqn:E2;
        [| congruence].
      right. now apply streq_true.
  - intros (k & v & -> & Hk & Hv & Hkey).
    rewrite entry_of_line_one_colon by assumption.
    destruct Hkey as [-> | ->]; cbn; discriminate.
Qed.

Lemma well_formed_line_true (txt : gostring) :
  well_formed_line txt = true <-> blank txt \/ one_colon_form txt.
Proof.
  unfold well_formed_line. rewrite orb_true_iff, isBlank_true.
  rewrite <- entry_of_line_Some.
  destruct (entry_of_line txt); split; intros [H | H]; auto;
    try discriminate; try congruence.
  right. discriminate.
Qed.

Lemma well_formed_line_cases (txt : gostring) :
  well_formed_line txt = true ->
  isBlank txt = true
  \/ (isBlank txt = false /\ exists e, entry_of_line txt = Some e).
Proof.
  unfold well_formed_line. destruct (isBlank txt); [auto |].
  cbn. destruct (entry_of_line txt) as [e |]; [| discriminate].
  intros _. right. split; [reflexivity | now exists e].
Qed.

Lemma ComputeTree_body_malformed root st txt :
  well_formed_line txt = false ->
  ComputeTree_body root st txt = ([], Exitf (go "broken line " ++ txt)).
Proof.
  unfold well_formed_line. intros H.
  apply orb_false_iff in H as [Hb He].
  rewrite ComputeTree_body_entry by assumption.
  now destruct (entry_of_line txt).
Qed.

(** The entry of a line with white space around the key and the value. *)
Lemma entry_of_line_padded (w1 key w2 w3 v w4 : gostring) :
  whitespace w1 -> whitespace w2 -> whitespace w3 -> whitespace w4 ->
  tight key = true -> ~ In colon key ->
  tight v = true -> ~ In colon v ->
  entry_of_line (w1 ++ key ++ w2 ++ colon :: w3 ++ v ++ w4) =
  if streq key (go "inputs") then Some (InputEntry v)
  else if streq key (go "path") then Some (VirtualEntry v)
       else None.
Proof.
  intros H1 H2 H3 H4 Tk Ck Tv Cv.
  replace (w1 ++ key ++ w2 ++ colon :: w3 ++ v ++ w4)
    with ((w1 ++ key ++ w2) ++ colon :: (w3 ++ v ++ w4))
    by now rewrite <- !app_assoc.
  rewrite entry_of_line_one_colon.
  - now rewrite !TrimSpace_strip by assumption.
  - rewrite !in_app_iff.
    pose proof (whitespace_no_colon _ H1). pose proof (whitespace_no_colon _ H2).
    tauto.
  - rewrite !in_app_iff.
    pose proof (whitespace_no_colon _ H3). pose proof (whitespace_no_colon _ H4).
    tauto.
Qed.

Lemma no_colon_inputs : ~ In colon (go "inputs").
Proof. cbn. intuition discriminate. Qed.

Lemma no_colon_path : ~ In colon (go "path").
Proof. cbn. intuition discriminate. Qed.

(** C9: the parser of ComputeTree tolerates white space: a line of white
    space only is handled as a blank line, and the white space around the
    key and around the value of a [key: value] line is taken off before
    use: what is stored for a value is the value without the white space at
    its two ends; the line "  inputs :  a.txt  " adds the input "a.txt". *)
Theorem C9_whitespace_tolerant :
  forall root st,
    (forall txt, whitespace txt ->
       ComputeTree_body root st txt = flush root st)
    /\ (forall w1 w2 w3 w4 v,
          whitespace w1 -> whitespace w2 -> whitespace w3 -> whitespace w4 ->
          tight v = true -> ~ In colon v ->
          ComputeTree_body root st
            (w1 ++ go "inputs" ++ w2 ++ colon :: w3 ++ v ++ w4)
          = ([], Returned
                   {| is_ := {| Inputs := Inputs (is_ st) ++ [v];
                                VirtualInputs := VirtualInputs (is_ st) |};
                      totalRuns := totalRuns st |})
          /\ ComputeTree_body root st
               (w1 ++ go "path" ++ w2 ++ colon :: w3 ++ v ++ w4)
             = ([], Returned
                      {| is_ := {| Inputs := Inputs (is_ st);
                                   VirtualInputs :=
                                     VirtualInputs (is_ st)
                                     ++ [ {| Path := v; Contents := None;
                                             IsExecutable := false |} ] |};
                         totalRuns := totalRuns st |}))
    /\ (forall k v,
          ~ In colon k -> ~ In colon v ->
          (exists w w', whitespace w /\ whitespace w'
                        /\ v = w ++ strings.TrimSpace v ++ w')
          /\ tight (strings.TrimSpace v) = true
          /\ (strings.TrimSpace k = go "inputs" ->
                ComputeTree_body root st (k ++ colon :: v)
                = ([], Returned
                         {| is_ := {| Inputs :=
                                        Inputs (is_ st)
                                        ++ [strings.TrimSpace v];
                                      VirtualInputs :=
                                        VirtualInputs (is_ st) |};
                            totalRuns := totalRuns st |}))
          /\ (strings.TrimSpace k = go "path" ->
                ComputeTree_body root st (k ++ colon :: v)
                = ([], Returned
                         {| is_ := {| Inputs := Inputs (is_ st);
                                      VirtualInputs :=
                                        VirtualInputs (is_ st)
                                        ++ [ {| Path := strings.TrimSpace v;
                                                Contents := None;
                                                IsExecutable := false |} ] |};
                            totalRuns := totalRuns st |})))
    /\ ComputeTree_body root st (go "  inputs :  a.txt  ")
       = ([], Returned
                {| is_ := {| Inputs := Inputs (is_ st) ++ [go "a.txt"];
                             VirtualInputs := VirtualInputs (is_ st) |};
                   totalRuns := totalRuns st |}).
Proof.
  intros root st.
  split; [| split; [| split; [| reflexivity]]].
  - intros txt Hw. apply ComputeTree_body_blank, isBlank_true.
    now apply TrimSpace_whitespace.
  - intros w1 w2 w3 w4 v H1 H2 H3 H4 Tv Cv. split.
    + replace (w1 ++ go "inputs" ++ w2 ++ colon :: w3 ++ v ++ w4)
        with ((w1 ++ go "inputs" ++ w2) ++ colon :: (w3 ++ v ++ w4))
        by now rewrite <- !app_assoc.
      rewrite ComputeTree_body_entry by apply colon_line_not_blank.
      rewrite <- !app_assoc.
      rewrite (entry_of_line_padded w1 (go "inputs") w2 w3 v w4);
        try assumption; [reflexivity | reflexivity | apply no_colon_inputs].
    + replace (w1 ++ go "path" ++ w2 ++ colon :: w3 ++ v ++ w4)
        with ((w1 ++ go "path" ++ w2) ++ colon :: (w3 ++ v ++ w4))
        by now rewrite <- !app_assoc.
      rewrite ComputeTree_body_entry by apply colon_line_not_blank.
      rewrite <- !app_assoc.
      rewrite (entry_of_line_padded w1 (go "path") w2 w3 v w4);
        try assumption; [reflexivity | reflexivity | apply no_colon_path].
  - intros k v Hk Hv.
    split; [apply TrimSpace_decompose |].
    split; [apply TrimSpace_tight |].
    split; intros Hkey;
      rewrite ComputeTree_body_entry by apply colon_line_not_blank;
      rewrite entry_of_line_one_colon by assumption;
      now rewrite Hkey.
Qed.

Lemma C9_witness :
  whitespace (go " ") /\ whitespace [ascii_of_N 0xc2; ascii_of_N 0xa0]
  /\ ComputeTree_body (go "") LoopState_start
       (go " " ++ go "inputs" ++ go " "
        ++ colon :: [ascii_of_N 0xc2; ascii_of_N 0xa0] ++ go "a.txt"
        ++ go " ")
     = ([], Returned
              {| is_ := {| Inputs := [] ++ [go "a.txt"];
                           VirtualInputs := [] |};
                 totalRuns := 0 |}).
Proof.
  assert (Hs : whitespace (go " "))
    by (apply runes_one; [reflexivity | constructor]).
  assert (Hn : whitespace [ascii_of_N 0xc2; ascii_of_N 0xa0])
    by (apply runes_two; [reflexivity | constructor]).
  assert (Hc : ~ In colon (go "a.txt")) by (cbn; intuition discriminate).
  split; [exact Hs | split; [exact Hn |]].
  exact (proj1 (proj1 (proj2 (C9_whitespace_tolerant (go "") LoopState_start))
                  (go " ") (go " ") [ascii_of_N 0xc2; ascii_of_N 0xa0]
                  (go " ") (go "a.txt") Hs Hs Hn Hs eq_refl Hc)).
Defined.

(** ** Virtual inputs *)

Lemma add_entry_only_paths (s : InputSpec) (e : Entry) :
  only_paths s -> only_paths (add_entry s e).
Proof.
  unfold only_paths. intros H. destruct e; cbn; [assumption |].
  apply Forall_app. split; [assumption |].
  constructor; [now split | constructor].
Qed.

Lemma ComputeTree_body_only_paths root st txt :
  only_paths (is_ st) ->
  Forall only_paths (builds (trace (ComputeTree_body root st txt)))
  /\ forall st', outcome (ComputeTree_body root st txt) = Returned st' ->
       only_paths (is_ st').
Proof.
  intros H. destruct (isBlank txt) eqn:E.
  - rewrite ComputeTree_body_blank by assumption. unfold flush.
    destruct (InputSpec_empty (is_ st)); cbn.
    + split; [constructor |]. intros st' [= <-]. assumption.
    + split; [now repeat constructor |]. intros st' [= <-]. constructor.
  - rewrite ComputeTree_body_entry by assumption.
    destruct (entry_of_line txt) as [e |]; cbn.
    + split; [constructor |]. intros st' [= <-]. cbn.
      now apply add_entry_only_paths.
    + split; [constructor | discriminate].
Qed.

Lemma ComputeTree_loop_only_paths root lines st :
  only_paths (is_ st) ->
  Forall only_paths (builds (trace (ComputeTree_loop root lines st))).
Proof.
  revert st. induction lines as [| l r IH]; intros st H; cbn; [constructor |].
  destruct (ComputeTree_body_only_paths root st l H) as [Hb Hs].
  destruct (ComputeTree_body root st l) as [t [st' | msg | msg]]; cbn in *;
    try assumption.
  specialize (IH st' (Hs st' eq_refl)).
  destruct (ComputeTree_loop root r st') as [t' o]. cbn in *.
  rewrite builds_app. apply Forall_app. now split.
Qed.

Lemma ComputeTree_builds (f : Flags) (w : World) :
  builds (trace (ComputeTree f w)) = []
  \/ exists data,
       builds (trace (ComputeTree f w))
       = builds (trace (ComputeTree_loop (inputRoot f) (bufio.scanLines data)
                          LoopState_start)).
Proof.
  unfold ComputeTree, getPathFlag.
  destruct (streq (pathPrefix f) (go "")); [now left |].
  rewrite bind_ret.
  destruct (os_Open w (pathPrefix f)) as [data |]; [| now left].
  right. exists data. fold LoopState_start.
  destruct (ComputeTree_loop (inputRoot f) (bufio.scanLines data)
              LoopState_start) as [t [st | msg | msg]]; cbn;
    try reflexivity.
  rewrite builds_app. cbn. now rewrite app_nil_r.
Qed.

(** C10: a [path: <virtual path>] line adds a VirtualInput that carries the
    path and nothing else (no contents, not executable), and so every
    virtual input of every specification ComputeTree hands to the tree
    builder carries a path and nothing else. *)
Theorem C10_virtual_input_carries_only_a_path :
  (forall root st k v,
     ~ In colon k -> ~ In colon v -> strings.TrimSpace k = go "path" ->
     ComputeTree_body root st (k ++ colon :: v)
     = ([], Returned
              {| is_ := {| Inputs := Inputs (is_ st);
                           VirtualInputs :=
                             VirtualInputs (is_ st)
                             ++ [ {| Path := strings.TrimSpace v;
                                     Contents := None;
                                     IsExecutable := false |} ] |};
                 totalRuns := totalRuns st |}))
  /\ (forall f w spec vi,
        In spec (builds (trace (ComputeTree f w))) ->
        In vi (VirtualInputs spec) ->
        Contents vi = None /\ IsExecutable vi = false).
Proof.
  split.
  - intros root st k v Hk Hv Hkey.
    rewrite ComputeTree_body_entry by apply colon_line_not_blank.
    rewrite entry_of_line_one_colon by assumption.
    now rewrite Hkey.
  - intros f w spec vi Hs Hvi.
    assert (Forall only_paths (builds (trace (ComputeTree f w)))) as Hall.
    { destruct (ComputeTree_builds f w) as [-> | [data ->]]; [constructor |].
      apply ComputeTree_loop_only_paths. constructor. }
    rewrite Forall_forall in Hall. specialize (Hall spec Hs).
    unfold only_paths in Hall. rewrite Forall_forall in Hall.
    exact (Hall vi Hvi).
Qed.

Lemma C10_witness :
  ComputeTree_body (go "") LoopState_start (go "path: b.txt")
  = ([], Returned
           {| is_ := {| Inputs := [];
                        VirtualInputs :=
                          [ {| Path := go "b.txt"; Contents := None;
                               IsExecutable := false |} ] |};
              totalRuns := 0 |}).
Proof.
  apply (proj1 C10_virtual_input_carries_only_a_path (go "") LoopState_start
           (go "path") (go " b.txt")).
  - cbn. intuition discriminate.
  - cbn. intuition discriminate.
  - reflexivity.
Defined.

(** ** Which lines are accepted *)

(** C5, as the code has it: a line is accepted exactly when it is blank or
    has a single colon with, before it, the key inputs or path (white space
    aside); any other line, a [key: value] line whose value holds a colon
    among them, stops the program with the message "broken line" followed
    by the line. *)
Theorem C5_accepted_lines :
  forall root st txt,
    (blank txt \/ one_colon_form txt ->
       exists t st', ComputeTree_body root st txt = (t, Returned st'))
    /\ (~ (blank txt \/ one_colon_form txt) ->
          ComputeTree_body root st txt
          = ([], Exitf (go "broken line " ++ txt)))
    /\ (well_formed_line txt = true <-> blank txt \/ one_colon_form txt).
Proof.
  intros root st txt. repeat split.
  - intros H. apply well_formed_line_true, well_formed_line_cases in H.
    destruct H as [Hb | [Hb [e He]]].
    + rewrite ComputeTree_body_blank by assumption. unfold flush.
      destruct (InputSpec_empty (is_ st)); unfold ret; eauto.
    + rewrite ComputeTree_body_entry, He by assumption. unfold ret. eauto.
  - intros H. apply ComputeTree_body_malformed.
    destruct (well_formed_line txt) eqn:E; [| reflexivity].
    apply well_formed_line_true in E. contradiction.
  - apply well_formed_line_true.
  - apply well_formed_line_true.
Qed.

Lemma C5_witness :
  exists t st',
    ComputeTree_body (go "") LoopState_start (go "inputs: a.txt")
    = (t, Returned st').
Proof.
  apply (proj1 (C5_accepted_lines (go "") LoopState_start
                  (go "inputs: a.txt"))).
  right. exists (go "inputs"), (go " a.txt").
  split; [reflexivity |].
  split; [cbn; intuition discriminate |].
  split; [cbn; intuition discriminate | now left].
Defined.

(** A [key: value] line whose value holds a colon is of the form the claim
    accepts, and the code rejects it. *)
Lemma C5_counterexample :
  key_value_form (go "inputs: c:/a.txt")
  /\ ComputeTree_body (go "") LoopState_start (go "inputs: c:/a.txt")
     = ([], Exitf (go "broken line inputs: c:/a.txt")).
Proof.
  split; [| reflexivity].
  exists (go "inputs"), (go " c:/a.txt"). split; [reflexivity | now left].
Qed.

(** ** A malformed line *)

Lemma ComputeTree_open (f : Flags) (w : World) (data : gostring) :
  pathPrefix f <> go "" -> os_Open w (pathPrefix f) = Some data ->
  ComputeTree f w =
  bind (ComputeTree_loop (inputRoot f) (bufio.scanLines data) LoopState_start)
       (fun st => emit (LogInfoRan (totalRuns st))).
Proof.
  intros Hp Ho. unfold ComputeTree, getPathFlag.
  apply streq_false in Hp. rewrite Hp, bind_ret, Ho. reflexivity.
Qed.

Lemma ComputeTree_loop_malformed root pre bad post st t st' :
  ComputeTree_loop root pre st = (t, Returned st') ->
  well_formed_line bad = false ->
  ComputeTree_loop root (pre ++ bad :: post) st
  = (t, Exitf (go "broken line " ++ bad)).
Proof.
  intros Hpre Hbad. rewrite ComputeTree_loop_app, Hpre. cbn.
  rewrite (ComputeTree_body_malformed root st' bad Hbad). cbn.
  now rewrite app_nil_r.
Qed.

(** C3, as the code has it: at a malformed line the program stops at once
    with the message "broken line" followed by the text of that line, and
    nothing else: the builds started by the lines before it are all that
    has happened, and no line after it is read. *)
Theorem C3_malformed_line_stops_the_run :
  forall f w data pre bad post t st,
    pathPrefix f <> go "" ->
    os_Open w (pathPrefix f) = Some data ->
    bufio.scanLines data = pre ++ bad :: post ->
    ComputeTree_loop (inputRoot f) pre LoopState_start = (t, Returned st) ->
    well_formed_line bad = false ->
    ComputeTree f w = (t, Exitf (go "broken line " ++ bad)).
Proof.
  intros f w data pre bad post t st Hp Ho Hl Hpre Hbad.
  rewrite (ComputeTree_open f w data Hp Ho), Hl.
  now rewrite (ComputeTree_loop_malformed _ _ _ post _ _ _ Hpre Hbad).
Qed.

Lemma C3_witness :
  ComputeTree (flags_for computeTree (go "") (go "spec.txt") 10)
    (world_with good_then_bad (go ""))
  = ([ComputeMerkleTree (go "")
        {| Inputs := [go "b.txt"]; VirtualInputs := [] |}],
     Exitf (go "broken line inputs a.txt")).
Proof.
  apply (C3_malformed_line_stops_the_run
           (flags_for computeTree (go "") (go "spec.txt") 10)
           (world_with good_then_bad (go "")) good_then_bad
           [go "inputs: b.txt"; go ""] (go "inputs a.txt") [go ""]
           _ {| is_ := InputSpec_zero; totalRuns := 1 |}).
  - discriminate.
  - reflexivity.
  - reflexivity.
  - reflexivity.
  - reflexivity.
Defined.

(** The first record is malformed and the second is not: the program stops
    at the first, the second is never built; and the message is the same
    when the malformed line is the third line, in the second record. *)
Lemma C3_counterexample :
  ComputeTree (flags_for computeTree (go "") (go "spec.txt") 10)
    (world_with bad_then_good (go ""))
  = ([], Exitf (go "broken line inputs a.txt"))
  /\ outcome (ComputeTree (flags_for computeTree (go "") (go "spec.txt") 10)
                (world_with good_then_bad (go "")))
     = Exitf (go "broken line inputs a.txt")
  /\ records (bufio.scanLines bad_then_good)
     = [[go "inputs a.txt"]; [go "inputs: b.txt"]].
Proof. repeat split. Qed.

(** ** Traces of computations *)

Lemma trace_bind {A B : Type} (m : M A) (k : A -> M B) :
  trace (bind m k) =
  trace m ++ match outcome m with
             | Returned a => trace (k a)
             | _ => []
             end.
Proof.
  destruct m as [t [a | msg | msg]]; cbn; rewrite ?app_nil_r; try reflexivity.
  now destruct (k a).
Qed.


(** ** Records *)

Lemma groups_not_nil (lines : list gostring) : groups lines <> [].
Proof.
  destruct lines as [| l r]; cbn; [discriminate |].
  destruct (isBlank l); [discriminate |].
  destruct (groups r); discriminate.
Qed.

Lemma groups_snoc_blank (pre : list gostring) (b : gostring) :
  isBlank b = true -> groups (pre ++ [b]) = groups pre ++ [[]].
Proof.
  intros Hb. induction pre as [| l r IH]; cbn.
  - now rewrite Hb.
  - rewrite IH. destruct (isBlank l); [reflexivity |].
    pose proof (groups_not_nil r).
    destruct (groups r); [congruence | reflexivity].
Qed.

Lemma groups_entries (lines : list gostring) :
  Forall (fun l => well_formed_line l = true) lines ->
  Forall (Forall is_entry) (groups lines).
Proof.
  induction 1 as [| l r Hl Hr IH]; cbn; [now repeat constructor |].
  apply well_formed_line_cases in Hl.
  destruct Hl as [-> | [-> [e He]]].
  - constructor; [constructor | assumption].
  - destruct (groups r) as [| g gs]; [repeat constructor |];
      unfold is_entry; try congruence.
    inversion IH; subst. constructor; [| assumption].
    constructor; [unfold is_entry; congruence | assumption].
Qed.

Lemma add_entry_not_empty (s : InputSpec) (e : Entry) :
  InputSpec_empty (add_entry s e) = false.
Proof.
  unfold InputSpec_empty. destruct e; cbn.
  - now destruct (Inputs s).
  - destruct (Inputs s); [| reflexivity]. now destruct (VirtualInputs s).
Qed.

Lemma add_lines_not_empty (s : InputSpec) (g : list gostring) :
  InputSpec_empty s = false -> InputSpec_empty (add_lines s g) = false.
Proof.
  revert s. induction g as [| l r IH]; intros s H; cbn; [assumption |].
  destruct (entry_of_line l); apply IH; [apply add_entry_not_empty | exact H].
Qed.

Lemma add_lines_empty (s : InputSpec) (g : list gostring) :
  Forall is_entry g ->
  InputSpec_empty (add_lines s g)
  = InputSpec_empty s && negb (nonempty_group g).
Proof.
  intros H. destruct H as [| l r Hl Hr]; cbn.
  - now rewrite andb_true_r.
  - rewrite andb_false_r. unfold is_entry in Hl.
    destruct (entry_of_line l) as [e |]; [| congruence].
    apply add_lines_not_empty, add_entry_not_empty.
Qed.

Lemma handed_over_cons s g g' gs :
  handed_over s (g :: g' :: gs)
  = (if InputSpec_empty (add_lines s g)
     then fst (handed_over InputSpec_zero (g' :: gs))
     else add_lines s g :: fst (handed_over InputSpec_zero (g' :: gs)),
     snd (handed_over InputSpec_zero (g' :: gs))).
Proof.
  change (handed_over s (g :: g' :: gs))
    with (let (bs, fin) := handed_over InputSpec_zero (g' :: gs) in
          (if InputSpec_empty (add_lines s g) then bs
           else add_lines s g :: bs, fin)).
  now destruct (handed_over InputSpec_zero (g' :: gs)).
Qed.

Lemma handed_over_cons_entry s l e g gs :
  entry_of_line l = Some e ->
  handed_over s ((l :: g) :: gs) = handed_over (add_entry s e) (g :: gs).
Proof. intros H. cbn. now rewrite H. Qed.

Lemma handed_over_closed (gs : list (list gostring)) :
  Forall (Forall is_entry) gs ->
  handed_over InputSpec_zero (gs ++ [[]])
  = (map spec_of_record (filter nonempty_group gs), InputSpec_zero).
Proof.
  induction 1 as [| g gs' Hg Hgs IH]; [reflexivity |].
  change ((g :: gs') ++ [[]]) with (g :: (gs' ++ [[]])).
  destruct (gs' ++ [[]]) as [| g1 rest] eqn:E.
  { now destruct gs'. }
  rewrite handed_over_cons, IH. cbn [fst snd].
  fold (spec_of_record g). unfold spec_of_record at 1.
  rewrite (add_lines_empty _ _ Hg). cbn.
  now destruct g.
Qed.

Lemma ComputeTree_loop_handed_over root lines st :
  Forall (fun l => well_formed_line l = true) lines ->
  exists n,
    ComputeTree_loop root lines st
    = (map (ComputeMerkleTree root)
         (fst (handed_over (is_ st) (groups lines))),
       Returned {| is_ := snd (handed_over (is_ st) (groups lines));
                   totalRuns := n |}).
Proof.
  intros H. revert st. induction H as [| l r Hl Hr IH]; intros st.
  - exists (totalRuns st). now destruct st.
  - cbn [ComputeTree_loop groups].
    apply well_formed_line_cases in Hl.
    destruct Hl as [Hb | [Hb [e He]]]; rewrite Hb.
    + rewrite ComputeTree_body_blank by assumption.
      pose proof (groups_not_nil r) as Hne.
      unfold flush. destruct (InputSpec_empty (is_ st)) eqn:E.
      * rewrite bind_ret. destruct (IH st) as [n Hn]. exists n.
        rewrite Hn. apply InputSpec_empty_zero in E. rewrite E.
        destruct (groups r) as [| g gs]; [congruence |].
        rewrite handed_over_cons. reflexivity.
      * destruct (IH {| is_ := InputSpec_zero;
                        totalRuns := int_add (totalRuns st) 1 |})
          as [n Hn].
        exists n. cbn [bind]. rewrite Hn. cbn [is_].
        destruct (groups r) as [| g gs]; [congruence |].
        rewrite handed_over_cons. cbn [add_lines]. rewrite E.
        reflexivity.
    + rewrite ComputeTree_body_entry, He, bind_ret by assumption.
      destruct (IH {| is_ := add_entry (is_ st) e;
                      totalRuns := totalRuns st |}) as [n Hn].
      exists n. rewrite Hn. cbn [is_].
      pose proof (groups_not_nil r) as Hne.
      destruct (groups r) as [| g gs]; [congruence |].
      now rewrite (handed_over_cons_entry _ _ _ _ _ He).
Qed.

Lemma ComputeTree_loop_stdout root lines st :
  stdout (trace (ComputeTree_loop root lines st)) = [].
Proof.
  revert st. induction lines as [| l r IH]; intros st; [reflexivity |].
  cbn [ComputeTree_loop]. rewrite trace_bind, stdout_app.
  assert (stdout (trace (ComputeTree_body root st l)) = []) as ->.
  { destruct (ComputeTree_body_trace root st l) as [-> | [-> _]];
      reflexivity. }
  destruct (outcome (ComputeTree_body root st l)); [apply IH | |];
    reflexivity.
Qed.

Lemma ComputeTree_stdout (f : Flags) (w : World) :
  stdout (trace (ComputeTree f w)) = [].
Proof.
  unfold ComputeTree, getPathFlag.
  destruct (streq (pathPrefix f) (go "")); [reflexivity |].
  rewrite bind_ret.
  destruct (os_Open w (pathPrefix f)) as [data |]; [| reflexivity].
  rewrite trace_bind, stdout_app, ComputeTree_loop_stdout.
  now destruct (outcome _).
Qed.

(** ** Counting the runs *)

Lemma outcome_bind {A B : Type} (m : M A) (k : A -> M B) :
  outcome (bind m k) =
  match outcome m with
  | Returned a => outcome (k a)
  | Exitf msg => Exitf msg
  | Fatal msg => Fatal msg
  end.
Proof.
  destruct m as [t [a | msg | msg]]; cbn; try reflexivity.
  now destruct (k a).
Qed.

Lemma wrap64_add (a b : Z) : wrap64 (wrap64 a + b) = wrap64 (a + b).
Proof.
  unfold wrap64. f_equal.
  replace ((a + 2 ^ 63) mod 2 ^ 64 - 2 ^ 63 + b + 2 ^ 63)%Z
    with ((a + 2 ^ 63) mod 2 ^ 64 + b)%Z by lia.
  rewrite Z.add_mod_idemp_l by lia. f_equal. lia.
Qed.

Lemma wrap64_small (a : Z) :
  (- 2 ^ 63 <= a < 2 ^ 63)%Z -> wrap64 a = a.
Proof.
  intros H. unfold wrap64. rewrite Z.mod_small by lia. lia.
Qed.

Lemma wrap64_idem (a : Z) : wrap64 (wrap64 a) = wrap64 a.
Proof.
  transitivity (wrap64 (wrap64 a + 0)); [now rewrite Z.add_0_r |].
  rewrite wrap64_add. now rewrite Z.add_0_r.
Qed.

(** The trace of the loop is a list of tree builds, all with the same
    root, and the counter goes up by their number. *)
Lemma ComputeTree_loop_counts root lines st :
  wrap64 (totalRuns st) = totalRuns st ->
  exists specs,
    trace (ComputeTree_loop root lines st)
    = map (ComputeMerkleTree root) specs
    /\ forall st',
         outcome (ComputeTree_loop root lines st) = Returned st' ->
         totalRuns st'
         = wrap64 (totalRuns st + Z.of_nat (List.length specs)).
Proof.
  revert st. induction lines as [| l r IH]; intros st Hw.
  - exists []. split; [reflexivity |]. intros st' [= <-]. cbn.
    now rewrite Z.add_0_r.
  - cbn [ComputeTree_loop]. rewrite trace_bind, outcome_bind.
    destruct (isBlank l) eqn:E.
    + rewrite ComputeTree_body_blank by assumption. unfold flush.
      destruct (InputSpec_empty (is_ st)).
      * cbn. now apply IH.
      * cbn [trace outcome fst snd].
        destruct (IH {| is_ := InputSpec_zero;
                        totalRuns := int_add (totalRuns st) 1 |})
          as (specs & Ht & Hn); [apply wrap64_idem |].
        exists (is_ st :: specs). split; [cbn; now rewrite Ht |].
        intros st' Hst. rewrite (Hn st' Hst). cbn [totalRuns List.length].
        unfold int_add. rewrite wrap64_add. f_equal. lia.
    + rewrite ComputeTree_body_entry by assumption.
      destruct (entry_of_line l) as [e |].
      * destruct (IH {| is_ := add_entry (is_ st) e;
                        totalRuns := totalRuns st |})
          as (specs & Ht & Hn); [exact Hw |].
        exists specs. cbn. split; assumption.
      * exists []. split; [reflexivity | discriminate].
Qed.

(** C1, as the code has it: ComputeTree writes nothing to standard output,
    whatever the file; for a batch of well-formed lines whose last line is
    blank, it starts one tree build per record, in the order of the
    records, each with the inputs and virtual inputs of its record, then
    logs the number of runs, which is the number of the records (in 64
    bits), and returns. *)
Theorem C1_one_build_per_closed_record :
  forall f w,
    stdout (trace (ComputeTree f w)) = []
    /\ forall data,
         pathPrefix f <> go "" ->
         os_Open w (pathPrefix f) = Some data ->
         Forall (fun l => well_formed_line l = true) (bufio.scanLines data) ->
         closed_batch (bufio.scanLines data) ->
         ComputeTree f w
         = (map (ComputeMerkleTree (inputRoot f))
              (map spec_of_record (records (bufio.scanLines data)))
            ++ [LogInfoRan
                  (wrap64
                     (Z.of_nat
                        (List.length (records (bufio.scanLines data)))))],
            Returned tt)
         /\ ((Z.of_nat (List.length (records (bufio.scanLines data)))
              < 2 ^ 63)%Z ->
               ComputeTree f w
               = (map (ComputeMerkleTree (inputRoot f))
                    (map spec_of_record (records (bufio.scanLines data)))
                  ++ [LogInfoRan
                        (Z.of_nat
                           (List.length (records (bufio.scanLines data))))],
                  Returned tt)).
Proof.
  intros f w. split; [apply ComputeTree_stdout |].
  intros data Hp Ho Hwf (pre & b & Hlines & Hb).
  assert (E : ComputeTree f w
              = (map (ComputeMerkleTree (inputRoot f))
                   (map spec_of_record (records (bufio.scanLines data)))
                 ++ [LogInfoRan
                       (wrap64
                          (Z.of_nat
                             (List.length
                                (records (bufio.scanLines data)))))],
                 Returned tt)).
  { rewrite (ComputeTree_open f w data Hp Ho).
    destruct (ComputeTree_loop_handed_over (inputRoot f) _ LoopState_start
                Hwf) as [n Hn].
    destruct (ComputeTree_loop_counts (inputRoot f) (bufio.scanLines data)
                LoopState_start eq_refl) as (specs & Ht & Hc).
    rewrite Hn in Ht, Hc. cbn [trace outcome fst snd] in Ht, Hc.
    specialize (Hc _ eq_refl). cbn [totalRuns LoopState_start] in Hc.
    rewrite Z.add_0_l in Hc.
    apply (f_equal (@List.length Event)) in Ht. rewrite !length_map in Ht.
    rewrite <- Ht in Hc. clear Ht specs.
    rewrite Hn. cbn [bind emit]. rewrite Hc. clear Hc Hn n.
    apply isBlank_true in Hb.
    rewrite Hlines in Hwf |- *. rewrite groups_snoc_blank by assumption.
    apply Forall_app in Hwf as [Hpre _].
    cbn [LoopState_start is_].
    rewrite (handed_over_closed _ (groups_entries _ Hpre)). cbn [fst].
    unfold records. rewrite groups_snoc_blank by assumption.
    rewrite filter_app. cbn [filter nonempty_group].
    now rewrite app_nil_r, length_map. }
  split; [exact E |].
  intros Hlt. rewrite E, wrap64_small by lia. reflexivity.
Qed.

Lemma C1_witness :
  ComputeTree (flags_for computeTree (go "") (go "spec.txt") 10)
    (world_with one_record (go ""))
  = (map (ComputeMerkleTree (go ""))
       (map spec_of_record (records (bufio.scanLines one_record)))
     ++ [LogInfoRan
           (wrap64
              (Z.of_nat (List.length (records (bufio.scanLines one_record)))))],
     Returned tt).
Proof.
  refine (proj1 (proj2 (C1_one_build_per_closed_record
                          (flags_for computeTree (go "") (go "spec.txt") 10)
                          (world_with one_record (go ""))) one_record
                   _ eq_refl _ _)).
  - discriminate.
  - repeat constructor.
  - exists [go "inputs: a.txt"], (go ""). split; reflexivity.
Defined.

(** A batch of one record that is not empty: one tree build is started, and
    the program writes no root digest, nor anything else, to its output. *)
Lemma C1_counterexample :
  records (bufio.scanLines one_record) = [[go "inputs: a.txt"]]
  /\ builds (trace (main (flags_for computeTree (go "") (go "spec.txt") 10)
                      (world_with one_record (go ""))))
     = [{| Inputs := [go "a.txt"]; VirtualInputs := [] |}]
  /\ stdout (trace (main (flags_for computeTree (go "") (go "spec.txt") 10)
                      (world_with one_record (go ""))))
     = [].
Proof. repeat split. Qed.

(** C2, on the code: the batch of the scenario has the two records the
    claim names, and ComputeTree starts a tree build for the first only;
    the second, which no blank line follows, is dropped when the file
    ends. *)
Theorem C2_final_record_is_not_built :
  map spec_of_record (records (bufio.scanLines two_records))
  = [record_ab; record_c]
  /\ ComputeTree (flags_for computeTree (go "") (go "spec.txt") 10)
       (world_with two_records (go ""))
     = ([ComputeMerkleTree (go "") record_ab; LogInfoRan 1], Returned tt).
Proof. split; reflexivity. Qed.

(** Entries change the pending specification and start no build. *)
Lemma ComputeTree_loop_entries root (g : list gostring) st :
  Forall (fun l => isBlank l = false /\ is_entry l) g ->
  ComputeTree_loop root g st
  = ([], Returned {| is_ := add_lines (is_ st) g;
                     totalRuns := totalRuns st |}).
Proof.
  intros H. revert st. induction H as [| l r [Hb He] Hr IH]; intros st.
  - now destruct st.
  - cbn [ComputeTree_loop add_lines].
    rewrite ComputeTree_body_entry by assumption.
    unfold is_entry in He. destruct (entry_of_line l) as [e |]; [| congruence].
    rewrite bind_ret. now rewrite IH.
Qed.

(** The entries that follow the last blank line of a batch start no
    build: the loop ends with them pending. *)
Lemma ComputeTree_loop_open_record root (pre g : list gostring) st :
  Forall (fun l => isBlank l = false /\ is_entry l) g ->
  trace (ComputeTree_loop root (pre ++ g) st)
  = trace (ComputeTree_loop root pre st).
Proof.
  intros H. rewrite ComputeTree_loop_app, trace_bind.
  destruct (outcome (ComputeTree_loop root pre st)) as [st' | msg | msg];
    rewrite ?app_nil_r; try reflexivity.
  now rewrite (ComputeTree_loop_entries root g st' H), app_nil_r.
Qed.

(** ** main *)

Lemma main_deferred_returns (f : Flags) :
  main_deferred f = (trace (main_deferred f), Returned tt).
Proof.
  unfold main_deferred.
  destruct (negb (streq (cpuProfFile f) (go ""))); reflexivity.
Qed.

Lemma main_reaches_switch (f : Flags) (w : World) (tp : list Event) :
  operation f <> go "" -> (1 <= execAttempts f)%Z ->
  main_startProfile f w = (tp, Returned tt) ->
  NewClientFromFlags w = None ->
  main f w =
  bind (tp ++ [ClientConnect], Returned tt)
       (fun _ => bind (main_switch f w) (fun _ => main_deferred f)).
Proof.
  intros Hop Hn Hp Hc. unfold main.
  apply streq_false in Hop. rewrite Hop.
  destruct (Z.leb_spec (execAttempts f) 0) as [H | H]; [lia |].
  rewrite Hp, Hc. unfold emit.
  generalize (bind (main_switch f w) (fun _ => main_deferred f)).
  intros [t o]. cbn. now rewrite <- app_assoc.
Qed.

Lemma main_startProfile_collect {X : Type} (sel : Event -> option X) f w :
  (forall e, is_setup e = true -> sel e = None) ->
  collect sel (trace (main_startProfile f w)) = [].
Proof.
  intros H. unfold main_startProfile.
  destruct (negb (streq (cpuProfFile f) (go ""))); [| reflexivity].
  destruct (os_Create w (cpuProfFile f)); [reflexivity |].
  destruct (pprof_StartCPUProfile w (cpuProfFile f)); cbn;
    now rewrite ?H.
Qed.

Lemma main_deferred_collect {X : Type} (sel : Event -> option X) f :
  (forall e, is_setup e = true -> sel e = None) ->
  collect sel (trace (main_deferred f)) = [].
Proof.
  intros H. unfold main_deferred.
  destruct (negb (streq (cpuProfFile f) (go ""))); cbn; now rewrite ?H.
Qed.

(** What main lets be seen, setting up and winding down aside, is what
    its switch lets be seen, when the switch is reached. *)
Lemma main_collect {X : Type} (sel : Event -> option X) f w :
  (forall e, is_setup e = true -> sel e = None) ->
  collect sel (trace (main f w)) = []
  \/ collect sel (trace (main f w)) = collect sel (trace (main_switch f w)).
Proof.
  intros H. unfold main.
  destruct (streq (operation f) (go "")); [now left |].
  destruct (execAttempts f <=? 0)%Z; [now left |].
  rewrite trace_bind, collect_app, main_startProfile_collect by assumption.
  destruct (outcome (main_startProfile f w)); [| now left | now left].
  destruct (NewClientFromFlags w); [now left |].
  right. rewrite trace_bind, collect_app. cbn [emit trace fst outcome snd].
  rewrite trace_bind, collect_app.
  assert (collect sel [ClientConnect] = []) as -> by (cbn; now rewrite H).
  cbn [app].
  destruct (outcome (main_switch f w));
    rewrite ?main_deferred_collect by assumption; cbn;
    now rewrite ?app_nil_r.
Qed.

Lemma main_switch_checkDeterminism (f : Flags) (w : World) :
  operation f = checkDeterminism ->
  main_switch f w =
  bind (getDigestFlag f) (fun d =>
    bind (emit (CheckDeterminism d (inputRoot f) (execAttempts f))) (fun _ =>
      match tool_CheckDeterminism w d (inputRoot f) (execAttempts f) with
      | Some err =>
          bind (getDigestFlag f) (fun d' =>
            log_Exitf (go "error checking the determinism of " ++ d'
                       ++ go ": " ++ err))
      | None => ret tt
      end)).
Proof. intros H. unfold main_switch. rewrite H. reflexivity. Qed.

Lemma main_switch_downloadBlob (f : Flags) (w : World) :
  operation f = downloadBlob ->
  main_switch f w =
  bind (getDigestFlag f) (fun d =>
    bind (getPathFlag f) (fun p =>
      bind (emit (DownloadBlob d p)) (fun _ =>
        match tool_DownloadBlob w d p with
        | inr err =>
            bind (getDigestFlag f) (fun d' =>
              log_Exitf (go "error downloading blob for digest " ++ d'
                         ++ go ": " ++ err))
        | inl res => emit (StdoutWrite res)
        end))).
Proof. intros H. unfold main_switch. rewrite H. reflexivity. Qed.

Lemma main_switch_computeTree (f : Flags) (w : World) :
  operation f = computeTree -> main_switch f w = ComputeTree f w.
Proof. intros H. unfold main_switch. rewrite H. reflexivity. Qed.

Lemma main_switch_default (f : Flags) (w : World) :
  ~ In (operation f) (computeTree :: supportedOps) ->
  main_switch f w = ([], Exitf (unsupported_operation (operation f))).
Proof.
  intros H. unfold main_switch. cbv zeta.
  repeat match goal with
  | |- context [streq (operation f) ?op] =>
      let E := fresh "E" in
      destruct (streq (operation f) op) eqn:E;
        [apply streq_true in E; exfalso; apply H; rewrite E; cbn; tauto |]
  end.
  reflexivity.
Qed.

Lemma getDigestFlag_set (f : Flags) :
  digest f <> go "" -> getDigestFlag f = ret (digest f).
Proof.
  intros H. unfold getDigestFlag. apply streq_false in H. now rewrite H.
Qed.

Lemma getPathFlag_set (f : Flags) :
  pathPrefix f <> go "" -> getPathFlag f = ret (pathPrefix f).
Proof.
  intros H. unfold getPathFlag. apply streq_false in H. now rewrite H.
Qed.

Lemma checkDeterminism_attempts (f : Flags) (w : World) :
  operation f = checkDeterminism ->
  Forall (fun n => n = execAttempts f)
    (attempts_passed (trace (main_switch f w))).
Proof.
  intros H. rewrite (main_switch_checkDeterminism f w H).
  unfold getDigestFlag. destruct (streq (digest f) (go "")); [constructor |].
  rewrite bind_ret.
  destruct (tool_CheckDeterminism w (digest f) (inputRoot f) (execAttempts f));
    cbn; repeat constructor.
Qed.

(** C6: check_determinism wants at least one attempt.  With
    --exec_attempts at 0 or below the program stops with an error before it
    has done anything at all; with 1 or above, the attempt count the
    determinism checker is called with is the count of the flag, unchanged,
    and when the setting up succeeds and a digest is given the checker is
    called, once. *)
Theorem C6_attempts_at_least_one :
  forall f w,
    operation f = checkDeterminism ->
    ((execAttempts f <= 0)%Z ->
       main f w = ([], Exitf (go "--exec_attempts must be >= 1.")))
    /\ ((1 <= execAttempts f)%Z ->
          Forall (fun n => n = execAttempts f)
            (attempts_passed (trace (main f w)))
          /\ forall tp,
               main_startProfile f w = (tp, Returned tt) ->
               NewClientFromFlags w = None ->
               digest f <> go "" ->
               In (CheckDeterminism (digest f) (inputRoot f) (execAttempts f))
                  (trace (main f w))
               /\ attempts_passed (trace (main f w)) = [execAttempts f]).
Proof.
  intros f w Hop. split; [| split].
  - intros Hn. unfold main. rewrite Hop.
    change (streq checkDeterminism (go "")) with false. cbv iota.
    apply Z.leb_le in Hn. now rewrite Hn.
  - destruct (main_collect
                (fun e => match e with
                          | CheckDeterminism _ _ n => Some n
                          | _ => None
                          end) f w) as [E | E].
    + now intros [].
    + unfold attempts_passed. rewrite E. constructor.
    + unfold attempts_passed. rewrite E.
      now apply checkDeterminism_attempts.
  - intros tp Hp Hc Hd.
    assert (Hne : operation f <> go "") by (rewrite Hop; discriminate).
    rewrite (main_reaches_switch f w tp Hne H Hp Hc).
    rewrite (main_switch_checkDeterminism f w Hop).
    rewrite (getDigestFlag_set f Hd), !bind_ret.
    assert (Hs : attempts_passed tp = []).
    { replace tp with (trace (main_startProfile f w)) by now rewrite Hp.
      apply main_startProfile_collect. now intros []. }
    destruct (tool_CheckDeterminism w (digest f) (inputRoot f)
                (execAttempts f)) as [err |].
    + cbn. split.
      * apply in_or_app. right. cbn. tauto.
      * unfold attempts_passed in *. rewrite !collect_app, Hs. reflexivity.
    + rewrite (main_deferred_returns f). cbn. split.
      * apply in_or_app. right. cbn. tauto.
      * unfold attempts_passed in *. rewrite !collect_app, Hs. cbn.
        f_equal. apply main_deferred_collect. now intros [].
Qed.

Lemma C6_witness :
  main (flags_for checkDeterminism (go "abc/3") (go "") 0)
    (world_with (go "") (go ""))
  = ([], Exitf (go "--exec_attempts must be >= 1."))
  /\ attempts_passed
       (trace (main (flags_for checkDeterminism (go "abc/3") (go "") 3)
                 (world_with (go "") (go ""))))
     = [3%Z].
Proof.
  split.
  - apply (proj1 (C6_attempts_at_least_one
                    (flags_for checkDeterminism (go "abc/3") (go "") 0)
                    (world_with (go "") (go "")) eq_refl)).
    cbn. lia.
  - assert (H : (1 <= execAttempts
                       (flags_for checkDeterminism (go "abc/3") (go "") 3))%Z)
      by (cbn; lia).
    apply (proj2 (proj2 (C6_attempts_at_least_one
                           (flags_for checkDeterminism (go "abc/3") (go "") 3)
                           (world_with (go "") (go "")) eq_refl) H)
             [] eq_refl eq_refl).
    discriminate.
Defined.

(** C7, as the code has it: download_blob needs a digest and a path.  With
    a digest and no path the program stops with "--path must be
    specified." and writes nothing; with both, the blob is asked for with
    the digest and the path, and what the download returns is written to
    standard output, or its error stops the program. *)
Theorem C7_download_blob_needs_digest_and_path :
  forall f w tp,
    operation f = downloadBlob ->
    (1 <= execAttempts f)%Z ->
    main_startProfile f w = (tp, Returned tt) ->
    NewClientFromFlags w = None ->
    digest f <> go "" ->
    (pathPrefix f = go "" ->
       main f w
       = (tp ++ [ClientConnect], Exitf (go "--path must be specified.")))
    /\ (pathPrefix f <> go "" ->
          (forall res,
             tool_DownloadBlob w (digest f) (pathPrefix f) = inl res ->
             main f w
             = (tp ++ [ClientConnect; DownloadBlob (digest f) (pathPrefix f);
                       StdoutWrite res] ++ trace (main_deferred f),
                Returned tt)
             /\ stdout (trace (main f w)) = [res])
          /\ (forall err,
                tool_DownloadBlob w (digest f) (pathPrefix f) = inr err ->
                main f w
                = (tp ++ [ClientConnect;
                          DownloadBlob (digest f) (pathPrefix f)],
                   Exitf (go "error downloading blob for digest "
                          ++ digest f ++ go ": " ++ err)))).
Proof.
  intros f w tp Hop Hn Hp Hc Hd.
  assert (Hne : operation f <> go "") by (rewrite Hop; discriminate).
  rewrite (main_reaches_switch f w tp Hne Hn Hp Hc).
  rewrite (main_switch_downloadBlob f w Hop).
  rewrite (getDigestFlag_set f Hd), !bind_ret.
  assert (Hs : stdout tp = []).
  { replace tp with (trace (main_startProfile f w)) by now rewrite Hp.
    apply main_startProfile_collect. now intros []. }
  split; [| split].
  - intros E. unfold getPathFlag. rewrite E, streq_refl. cbn.
    now rewrite app_nil_r.
  - intros res Hr. rewrite (getPathFlag_set f H), !bind_ret, Hr.
    rewrite (main_deferred_returns f). cbn.
    split; [now rewrite <- app_assoc |].
    rewrite !stdout_app, Hs. cbn. f_equal.
    apply main_deferred_collect. now intros [].
  - intros err Hr. rewrite (getPathFlag_set f H), !bind_ret, Hr.
    rewrite !bind_ret. cbn.
    now rewrite <- app_assoc.
Qed.

Lemma C7_witness :
  stdout (trace (main (flags_for downloadBlob (go "abc/3") (go "out") 10)
                   (world_with (go "") (go "xyz"))))
  = [go "xyz"].
Proof.
  assert (H : (1 <= execAttempts
                     (flags_for downloadBlob (go "abc/3") (go "out") 10))%Z)
    by (cbn; lia).
  assert (Hd : digest (flags_for downloadBlob (go "abc/3") (go "out") 10)
               <> go "") by discriminate.
  assert (Hq : pathPrefix (flags_for downloadBlob (go "abc/3") (go "out") 10)
               <> go "") by discriminate.
  exact (proj2 (proj1 (proj2 (C7_download_blob_needs_digest_and_path
                                (flags_for downloadBlob (go "abc/3")
                                   (go "out") 10)
                                (world_with (go "") (go "xyz")) []
                                eq_refl H eq_refl eq_refl Hd) Hq)
                  (go "xyz") eq_refl)).
Defined.

(** With a digest whose blob the store holds and no --path, the program
    stops with an error and writes no byte of the blob. *)
Lemma C7_counterexample :
  tool_DownloadBlob (world_with (go "") (go "xyz")) (go "abc/3") (go "")
  = inl (go "xyz")
  /\ main (flags_for downloadBlob (go "abc/3") (go "") 10)
       (world_with (go "") (go "xyz"))
     = ([ClientConnect], Exitf (go "--path must be specified.")).
Proof. split; reflexivity. Qed.

(** C8: compute_tree is not in supportedOps, which lists seven operations,
    so neither the usage text of --operation nor the message for an
    unsupported operation names it; yet the switch of main has a case for
    it, which runs ComputeTree. *)
Theorem C8_compute_tree_runs_unadvertised :
  ~ In computeTree supportedOps
  /\ List.length supportedOps = 7
  /\ operation_usage
     = go "Specifies the operation to perform. Supported values: [download_action_result show_action download_blob download_dir reexecute_action check_determinism upload_blob]"
  /\ strings.Contains operation_usage computeTree = false
  /\ (forall op,
        unsupported_operation op
        = go "unsupported operation " ++ op
          ++ go ". Supported operations:" ++ LF
          ++ go "[download_action_result show_action download_blob download_dir reexecute_action check_determinism upload_blob]")
  /\ strings.Contains (fmt.vslice supportedOps) computeTree = false
  /\ (forall f w,
        ~ In (operation f) (computeTree :: supportedOps) ->
        main_switch f w = ([], Exitf (unsupported_operation (operation f))))
  /\ (forall f w, operation f = computeTree ->
        main_switch f w = ComputeTree f w)
  /\ (forall f w tp,
        operation f = computeTree ->
        (1 <= execAttempts f)%Z ->
        main_startProfile f w = (tp, Returned tt) ->
        NewClientFromFlags w = None ->
        main f w
        = bind (tp ++ [ClientConnect], Returned tt)
            (fun _ => bind (ComputeTree f w) (fun _ => main_deferred f))).
Proof.
  split; [cbn; intuition discriminate |].
  split; [reflexivity |].
  split; [reflexivity |].
  split; [reflexivity |].
  split; [reflexivity |].
  split; [reflexivity |].
  split; [apply main_switch_default |].
  split; [apply main_switch_computeTree |].
  intros f w tp Hop Hn Hp Hc.
  assert (Hne : operation f <> go "") by (rewrite Hop; discriminate).
  rewrite (main_reaches_switch f w tp Hne Hn Hp Hc).
  now rewrite (main_switch_computeTree f w Hop).
Qed.

Lemma C8_witness :
  main (flags_for computeTree (go "") (go "spec.txt") 10)
    (world_with one_record (go ""))
  = bind ([] ++ [ClientConnect], Returned tt)
      (fun _ =>
         bind (ComputeTree (flags_for computeTree (go "") (go "spec.txt") 10)
                 (world_with one_record (go "")))
           (fun _ =>
              main_deferred
                (flags_for computeTree (go "") (go "spec.txt") 10)))
  /\ main_switch (flags_for (go "frobnicate") (go "") (go "") 10)
       (world_with (go "") (go ""))
     = ([], Exitf (unsupported_operation (go "frobnicate"))).
Proof.
  assert (H : (1 <= execAttempts
                     (flags_for computeTree (go "") (go "spec.txt") 10))%Z)
    by (cbn; lia).
  split.
  - exact (proj2 (proj2 (proj2 (proj2 (proj2 (proj2 (proj2 (proj2
             C8_compute_tree_runs_unadvertised)))))))
             (flags_for computeTree (go "") (go "spec.txt") 10)
             (world_with one_record (go "")) [] eq_refl H eq_refl eq_refl).
  - apply (proj1 (proj2 (proj2 (proj2 (proj2 (proj2 (proj2
             C8_compute_tree_runs_unadvertised))))))
             (flags_for (go "frobnicate") (go "") (go "") 10)
             (world_with (go "") (go ""))).
    cbn. intuition discriminate.
Defined.

(** * Further properties of the code *)

(** ** The checks of main before it connects *)

(** main, lines 81-86: without --operation the program stops at once; with
    an operation and --exec_attempts at 0 or below it stops at once too,
    whatever the operation, also one that never reads the attempt count. *)
Theorem main_rejects_flags_before_anything :
  forall f w,
    (operation f = go "" ->
       main f w = ([], Exitf (go "--operation must be specified.")))
    /\ (operation f <> go "" -> (execAttempts f <= 0)%Z ->
          main f w = ([], Exitf (go "--exec_attempts must be >= 1."))).
Proof.
  intros f w. split.
  - intros E. unfold main. now rewrite E.
  - intros Hop Hn. unfold main. apply streq_false in Hop. rewrite Hop.
    apply Z.leb_le in Hn. now rewrite Hn.
Qed.

Lemma main_rejects_flags_before_anything_witness :
  main (flags_for downloadBlob (go "abc/3") (go "out") 0)
    (world_with (go "") (go "xyz"))
  = ([], Exitf (go "--exec_attempts must be >= 1.")).
Proof.
  apply (proj2 (main_rejects_flags_before_anything
                  (flags_for downloadBlob (go "abc/3") (go "out") 0)
                  (world_with (go "") (go "xyz")))).
  - discriminate.
  - cbn. lia.
Defined.

(** ** The flags an operation needs *)

Lemma main_switch_no_digest (f : Flags) (w : World) :
  In (operation f) needs_digest -> digest f = go "" ->
  main_switch f w = ([], Exitf (go "--digest must be specified.")).
Proof.
  intros Hin Hd. unfold main_switch, getDigestFlag. rewrite Hd.
  cbn in Hin.
  destruct Hin as [E | [E | [E | [E | [E | [E | []]]]]]];
    rewrite <- E; reflexivity.
Qed.

(** The switch of main, lines 108-141: download_action_result,
    download_blob, download_dir, show_action, reexecute_action and
    check_determinism need --digest.  Without it the program stops with
    "--digest must be specified." after it has connected, calls nothing on
    the client, and does not close the connection; this also when --path
    is missing, the digest being read first. *)
Theorem digest_is_read_first :
  forall f w tp,
    In (operation f) needs_digest ->
    digest f = go "" ->
    (1 <= execAttempts f)%Z ->
    main_startProfile f w = (tp, Returned tt) ->
    NewClientFromFlags w = None ->
    main f w = (tp ++ [ClientConnect],
                Exitf (go "--digest must be specified.")).
Proof.
  intros f w tp Hin Hd Hn Hp Hc.
  assert (Hne : operation f <> go "").
  { intros E. rewrite E in Hin. cbn in Hin.
    repeat (destruct Hin as [Hin | Hin]; [discriminate |]). exact Hin. }
  rewrite (main_reaches_switch f w tp Hne Hn Hp Hc).
  rewrite (main_switch_no_digest f w Hin Hd). cbn.
  now rewrite app_nil_r.
Qed.

Lemma digest_is_read_first_witness :
  main (flags_for showAction (go "") (go "") 10)
    (world_with (go "") (go ""))
  = ([] ++ [ClientConnect], Exitf (go "--digest must be specified.")).
Proof.
  apply (digest_is_read_first (flags_for showAction (go "") (go "") 10)
           (world_with (go "") (go "")) []).
  - cbn. tauto.
  - reflexivity.
  - cbn. lia.
  - reflexivity.
  - reflexivity.
Defined.

(** The switch of main with getPathFlag, lines 108-168:
    download_action_result, download_blob, download_dir, upload_blob and
    compute_tree need --path.  Without it (and with the digest, where the
    digest is read first) the switch stops with "--path must be specified."
    and has called nothing. *)
Theorem path_is_required :
  forall f w,
    In (operation f) needs_path ->
    pathPrefix f = go "" ->
    digest f <> go ""
    \/ operation f = uploadBlob \/ operation f = computeTree ->
    main_switch f w = ([], Exitf (go "--path must be specified.")).
Proof.
  intros f w Hin Hp Hd.
  unfold main_switch, ComputeTree, getPathFlag, getDigestFlag.
  rewrite Hp.
  destruct Hd as [Hd | [E | E]].
  - apply streq_false in Hd. rewrite Hd. cbn in Hin.
    destruct Hin as [E | [E | [E | [E | [E | []]]]]];
      rewrite <- E; reflexivity.
  - rewrite E. reflexivity.
  - rewrite E. reflexivity.
Qed.

Lemma path_is_required_witness :
  main_switch (flags_for uploadBlob (go "") (go "") 10)
    (world_with (go "") (go ""))
  = ([], Exitf (go "--path must be specified.")).
Proof.
  apply (path_is_required (flags_for uploadBlob (go "") (go "") 10)
           (world_with (go "") (go ""))).
  - cbn. tauto.
  - reflexivity.
  - right. left. reflexivity.
Defined.

(** The switch of main: show_action, reexecute_action and
    check_determinism never read --path, and compute_tree never reads
    --digest: another value of the flag changes nothing. *)
Theorem flags_not_read :
  forall f w,
    (In (operation f) [showAction; reexecuteAction; checkDeterminism] ->
       forall p, main_switch (with_path f p) w = main_switch f w)
    /\ (operation f = computeTree ->
          forall d, main_switch (with_digest f d) w = main_switch f w).
Proof.
  intros f w. split.
  - intros Hin p. unfold main_switch, with_path, getDigestFlag. cbn in *.
    destruct Hin as [E | [E | [E | []]]]; rewrite <- E; reflexivity.
  - intros E d. unfold main_switch, with_digest. cbn. rewrite E.
    reflexivity.
Qed.

Lemma flags_not_read_witness :
  main_switch (with_path (flags_for showAction (go "abc/3") (go "") 10)
                 (go "anywhere"))
    (world_with (go "") (go ""))
  = main_switch (flags_for showAction (go "abc/3") (go "") 10)
      (world_with (go "") (go "")).
Proof.
  apply (proj1 (flags_not_read (flags_for showAction (go "abc/3") (go "") 10)
                  (world_with (go "") (go "")))).
  cbn. tauto.
Defined.

(** upload_blob, lines 143-146: the upload needs the path only; the digest
    is read when the upload has failed, to word the error, so that without
    --digest the error of the upload is lost and the program stops with
    "--digest must be specified." instead. *)
Theorem upload_error_needs_digest :
  forall f w,
    operation f = uploadBlob ->
    pathPrefix f <> go "" ->
    (tool_UploadBlob w (pathPrefix f) = None ->
       main_switch f w = ([UploadBlob (pathPrefix f)], Returned tt))
    /\ (forall err,
          tool_UploadBlob w (pathPrefix f) = Some err ->
          (digest f = go "" ->
             main_switch f w
             = ([UploadBlob (pathPrefix f)],
                Exitf (go "--digest must be specified.")))
          /\ (digest f <> go "" ->
                main_switch f w
                = ([UploadBlob (pathPrefix f)],
                   Exitf (go "error uploading blob for digest "
                          ++ digest f ++ go ": " ++ err)))).
Proof.
  intros f w Hop Hp.
  assert (Hs : main_switch f w =
               bind (getPathFlag f) (fun p =>
                 bind (emit (UploadBlob p)) (fun _ =>
                   match tool_UploadBlob w p with
                   | Some err =>
                       bind (getDigestFlag f) (fun d' =>
                         log_Exitf (go "error uploading blob for digest "
                                    ++ d' ++ go ": " ++ err))
                   | None => ret tt
                   end))).
  { unfold main_switch. rewrite Hop. reflexivity. }
  rewrite Hs, (getPathFlag_set f Hp), bind_ret.
  split.
  - intros ->. reflexivity.
  - intros err ->. split.
    + intros Hd. unfold getDigestFlag. rewrite Hd. reflexivity.
    + intros Hd. rewrite (getDigestFlag_set f Hd). reflexivity.
Qed.

Lemma upload_error_needs_digest_witness :
  main_switch (flags_for uploadBlob (go "") (go "blob.bin") 10)
    (world_down (go "") (go "unavailable"))
  = ([UploadBlob (go "blob.bin")], Exitf (go "--digest must be specified.")).
Proof.
  assert (Hp : pathPrefix (flags_for uploadBlob (go "") (go "blob.bin") 10)
               <> go "") by discriminate.
  exact (proj1 (proj2 (upload_error_needs_digest
                         (flags_for uploadBlob (go "") (go "blob.bin") 10)
                         (world_down (go "") (go "unavailable")) eq_refl Hp)
                  (go "unavailable") eq_refl) eq_refl).
Defined.

(** ** What a run of main is made of *)

Ltac switch_cases f :=
  unfold main_switch; cbv zeta;
  repeat match goal with
  | |- context [streq (operation f) ?op] =>
      let E := fresh "E" in destruct (streq (operation f) op) eqn:E
  end.

Ltac flag_cases f :=
  unfold getDigestFlag, getPathFlag;
  destruct (streq (digest f) (go "")); destruct (streq (pathPrefix f) (go ""));
  cbn.

Lemma main_switch_shape (f : Flags) (w : World) :
  operation f <> computeTree -> switch_trace f (trace (main_switch f w)).
Proof.
  intros Hct. switch_cases f;
    repeat match goal with
    | H : streq _ _ = true |- _ => apply streq_true in H
    end;
    try contradiction.
  - flag_cases f; try constructor.
    destruct (tool_DownloadActionResult w (digest f) (pathPrefix f));
      now constructor.
  - flag_cases f; try constructor.
    destruct (tool_DownloadBlob w (digest f) (pathPrefix f));
      constructor; auto.
  - flag_cases f; try constructor.
    destruct (tool_DownloadDirectory w (digest f) (pathPrefix f));
      now constructor.
  - flag_cases f; try constructor;
      destruct (tool_ShowAction w (digest f)); constructor; auto.
  - unfold getDigestFlag.
    destruct (streq (digest f) (go "")); [constructor |].
    rewrite bind_ret.
    destruct (reexecution_error
                (tool_ReexecuteAction w (digest f) (inputRoot f)));
      cbn; rewrite ?app_nil_r; now apply switch_call_stream.
  - flag_cases f; try constructor;
      destruct (tool_CheckDeterminism w (digest f) (inputRoot f)
                  (execAttempts f));
      now constructor.
  - flag_cases f; try constructor;
      destruct (tool_UploadBlob w (pathPrefix f)); now constructor.
  - constructor.
Qed.


Lemma stdout_writes oe chunks :
  stdout (map (OutErr_write oe) chunks) = stdout_chunks chunks.
Proof.
  induction chunks as [| c r IH]; [reflexivity |].
  destruct oe, c; cbn; fold (stdout (map (OutErr_write SystemOutErr) r));
    now rewrite IH.
Qed.

Lemma main_switch_reexecuteAction (f : Flags) (w : World) :
  operation f = reexecuteAction ->
  main_switch f w =
  bind (getDigestFlag f) (fun d =>
    bind (emit (ReexecuteAction d (inputRoot f) SystemOutErr)) (fun _ =>
      bind (emit_all (map (OutErr_write SystemOutErr)
                        (streamed (tool_ReexecuteAction w d (inputRoot f)))))
        (fun _ =>
           match reexecution_error
                   (tool_ReexecuteAction w d (inputRoot f)) with
           | Some err =>
               bind (getDigestFlag f) (fun d' =>
                 log_Exitf (go "error reexecuting action " ++ d'
                            ++ go ": " ++ err))
           | None => ret tt
           end))).
Proof. intros H. unfold main_switch. rewrite H. reflexivity. Qed.

Lemma main_switch_reexecute_stdout (f : Flags) (w : World) :
  operation f = reexecuteAction ->
  stdout (trace (main_switch f w))
  = if streq (digest f) (go "") then []
    else stdout_chunks
           (streamed (tool_ReexecuteAction w (digest f) (inputRoot f))).
Proof.
  intros H. rewrite (main_switch_reexecuteAction f w H).
  unfold getDigestFlag.
  destruct (streq (digest f) (go "")); [reflexivity |].
  rewrite bind_ret.
  rewrite trace_bind. cbn [emit trace outcome fst snd].
  rewrite trace_bind. cbn [emit_all trace outcome fst snd].
  change (stdout ([ReexecuteAction (digest f) (inputRoot f) SystemOutErr]
                  ++ ?x)) with (stdout x).
  rewrite stdout_app, stdout_writes.
  destruct (reexecution_error _); cbn; now rewrite app_nil_r.
Qed.



(** ** The events of ComputeTree and of the switch *)

Lemma ComputeTree_loop_events root lines st :
  Forall (fun e => is_setup e = false)
    (trace (ComputeTree_loop root lines st)).
Proof.
  revert st. induction lines as [| l r IH]; intros st; [constructor |].
  cbn [ComputeTree_loop]. rewrite trace_bind. apply Forall_app. split.
  - destruct (ComputeTree_body_trace root st l) as [-> | [-> _]];
      repeat constructor.
  - destruct (outcome (ComputeTree_body root st l)); [apply IH | |];
      constructor.
Qed.

Lemma ComputeTree_events (f : Flags) (w : World) :
  Forall (fun e => is_setup e = false) (trace (ComputeTree f w)).
Proof.
  unfold ComputeTree, getPathFlag.
  destruct (streq (pathPrefix f) (go "")); [constructor |].
  rewrite bind_ret.
  destruct (os_Open w (pathPrefix f)) as [data |]; [| constructor].
  rewrite trace_bind. apply Forall_app. split.
  - apply ComputeTree_loop_events.
  - destruct (outcome _); repeat constructor.
Qed.

Lemma main_switch_events (f : Flags) (w : World) :
  Forall (fun e => is_setup e = false) (trace (main_switch f w)).
Proof.
  destruct (gostring_dec (operation f) computeTree) as [E | Hne].
  - rewrite (main_switch_computeTree f w E). apply ComputeTree_events.
  - pose proof (main_switch_shape f w Hne) as Hs.
    inversion Hs as [| c H1 H2 | c res H1 H2 H3 | c chunks H1 H2 H3].
    + constructor.
    + repeat constructor. now destruct c.
    + repeat constructor. now destruct c.
    + constructor; [now destruct c |].
      apply Forall_map, Forall_forall. intros [b | b] _; reflexivity.
Qed.

Lemma ComputeTree_loop_not_fatal root lines st msg :
  outcome (ComputeTree_loop root lines st) <> Fatal msg.
Proof.
  revert st. induction lines as [| l r IH]; intros st; [discriminate |].
  cbn [ComputeTree_loop]. rewrite outcome_bind.
  destruct (isBlank l) eqn:E.
  - rewrite ComputeTree_body_blank by assumption. unfold flush.
    destruct (InputSpec_empty (is_ st)); cbn; apply IH.
  - rewrite ComputeTree_body_entry by assumption.
    destruct (entry_of_line l); cbn; [apply IH | discriminate].
Qed.

Lemma ComputeTree_not_fatal (f : Flags) (w : World) msg :
  outcome (ComputeTree f w) <> Fatal msg.
Proof.
  unfold ComputeTree, getPathFlag.
  destruct (streq (pathPrefix f) (go "")); [discriminate |].
  rewrite bind_ret.
  destruct (os_Open w (pathPrefix f)) as [data |]; [| discriminate].
  rewrite outcome_bind.
  pose proof (ComputeTree_loop_not_fatal (inputRoot f)
                (bufio.scanLines data)
                {| is_ := InputSpec_zero; totalRuns := 0 |} msg) as H.
  destruct (outcome (ComputeTree_loop _ _ _)); cbn;
    [discriminate | discriminate | congruence].
Qed.

Lemma main_switch_not_fatal (f : Flags) (w : World) msg :
  outcome (main_switch f w) <> Fatal msg.
Proof.
  destruct (gostring_dec (operation f) computeTree) as [E | Hne].
  { rewrite (main_switch_computeTree f w E). apply ComputeTree_not_fatal. }
  switch_cases f;
    repeat match goal with
    | H : streq _ _ = true |- _ => apply streq_true in H
    end;
    try contradiction.
  - flag_cases f; try discriminate.
    now destruct (tool_DownloadActionResult w (digest f) (pathPrefix f)).
  - flag_cases f; try discriminate.
    now destruct (tool_DownloadBlob w (digest f) (pathPrefix f)).
  - flag_cases f; try discriminate.
    now destruct (tool_DownloadDirectory w (digest f) (pathPrefix f)).
  - flag_cases f; try discriminate;
      now destruct (tool_ShowAction w (digest f)).
  - flag_cases f; try discriminate;
      now destruct (reexecution_error
                      (tool_ReexecuteAction w (digest f) (inputRoot f))).
  - flag_cases f; try discriminate;
      now destruct (tool_CheckDeterminism w (digest f) (inputRoot f)
                      (execAttempts f)).
  - flag_cases f; try discriminate;
      now destruct (tool_UploadBlob w (pathPrefix f)).
  - discriminate.
Qed.

Lemma main_startProfile_events (f : Flags) (w : World) e :
  In e (trace (main_startProfile f w)) ->
  e = FileCreate (cpuProfFile f) \/ e = StartCPUProfile (cpuProfFile f).
Proof.
  unfold main_startProfile.
  destruct (negb (streq (cpuProfFile f) (go ""))); [| now cbn].
  destruct (os_Create w (cpuProfFile f)); [now cbn |].
  destruct (pprof_StartCPUProfile w (cpuProfFile f)); cbn; intuition.
Qed.

(** ** Deferred calls *)

(** main, lines 93-105 with log.Exitf: the connection to the client is
    closed exactly when main returns: every way out through log.Exitf or
    log.Fatal, the errors of the operations among them, leaves it open. *)
Theorem client_closed_iff_main_returns :
  forall f w,
    outcome (main f w) = Returned tt <-> In ClientClose (trace (main f w)).
Proof.
  intros f w. unfold main.
  destruct (streq (operation f) (go ""));
    [cbn; split; [discriminate | tauto] |].
  destruct (execAttempts f <=? 0)%Z;
    [cbn; split; [discriminate | tauto] |].
  pose proof (main_startProfile_events f w ClientClose) as Hp.
  pose proof (main_switch_events f w) as Hs.
  rewrite Forall_forall in Hs. specialize (Hs ClientClose).
  destruct (main_startProfile f w) as [tp [[] | m | m]];
    cbn [trace fst] in Hp.
  2, 3: cbn; split; [discriminate | intros H; apply Hp in H as [H | H];
                                     discriminate].
  destruct (NewClientFromFlags w) as [err |].
  { cbn. rewrite app_nil_r. split; [discriminate |].
    intros H; apply Hp in H as [H | H]; discriminate. }
  destruct (main_switch f w) as [ts [[] | m | m]]; cbn [trace fst] in Hs.
  - rewrite (main_deferred_returns f). cbn. split; [intros _ | reflexivity].
    apply in_or_app. right. right. apply in_or_app. right.
    unfold main_deferred.
    destruct (streq (cpuProfFile f) _); cbn; tauto.
  - cbn. split; [discriminate |]. rewrite ?app_nil_r.
    intros H. apply in_app_or in H as [H | [H | H]].
    + apply Hp in H as [H | H]; discriminate.
    + discriminate.
    + rewrite ?app_nil_r in H. apply Hs in H. discriminate.
  - cbn. split; [discriminate |]. rewrite ?app_nil_r.
    intros H. apply in_app_or in H as [H | [H | H]].
    + apply Hp in H as [H | H]; discriminate.
    + discriminate.
    + rewrite ?app_nil_r in H. apply Hs in H. discriminate.
Qed.

(** main, lines 88-105: when main returns, what has happened is the
    setting up, the switch, and the deferred calls last-in first-out: the
    connection is closed first, then the profile stopped, then its file
    closed. *)
Theorem main_return_frame :
  forall f w,
    outcome (main f w) = Returned tt ->
    trace (main f w)
    = (if streq (cpuProfFile f) (go "") then []
       else [FileCreate (cpuProfFile f); StartCPUProfile (cpuProfFile f)])
      ++ [ClientConnect] ++ trace (main_switch f w) ++ [ClientClose]
      ++ (if streq (cpuProfFile f) (go "") then []
          else [StopCPUProfile; FileClose (cpuProfFile f)]).
Proof.
  intros f w. unfold main, main_startProfile, main_deferred.
  destruct (streq (operation f) (go "")); [discriminate |].
  destruct (execAttempts f <=? 0)%Z; [discriminate |].
  destruct (streq (cpuProfFile f) (go "")); cbn [negb].
  - rewrite bind_ret.
    destruct (NewClientFromFlags w); [discriminate |].
    destruct (main_switch f w) as [ts [[] | m | m]]; cbn;
      [reflexivity | discriminate | discriminate].
  - destruct (os_Create w (cpuProfFile f)); [discriminate |].
    destruct (pprof_StartCPUProfile w (cpuProfFile f)); [discriminate |].
    destruct (NewClientFromFlags w); [discriminate |].
    destruct (main_switch f w) as [ts [[] | m | m]]; cbn;
      [reflexivity | discriminate | discriminate].
Qed.

Lemma outcome_main_deferred (f : Flags) :
  outcome (main_deferred f) = Returned tt.
Proof. now rewrite (main_deferred_returns f). Qed.

(** main, lines 88-98: log.Fatal ends the program only while the CPU
    profile is set up: the profile was asked for, the client is not yet
    connected, and either the file could not be created and nothing has
    happened, or the profile could not be started and the file, created,
    stays open. *)
Theorem fatal_only_from_profile :
  forall f w msg,
    outcome (main f w) = Fatal msg ->
    cpuProfFile f <> go ""
    /\ ((exists err,
           os_Create w (cpuProfFile f) = Some err
           /\ msg = go "Could not create CPU profile: " ++ err
           /\ trace (main f w) = [])
        \/ (exists err,
              os_Create w (cpuProfFile f) = None
              /\ pprof_StartCPUProfile w (cpuProfFile f) = Some err
              /\ msg = go "Could not start CPU profile: " ++ err
              /\ trace (main f w) = [FileCreate (cpuProfFile f)])).
Proof.
  intros f w msg. unfold main, main_startProfile.
  destruct (streq (operation f) (go "")); [discriminate |].
  destruct (execAttempts f <=? 0)%Z; [discriminate |].
  destruct (streq (cpuProfFile f) (go "")) eqn:Ec; cbn [negb].
  - rewrite bind_ret. destruct (NewClientFromFlags w); [discriminate |].
    rewrite !outcome_bind. cbn [emit outcome snd].
    pose proof (main_switch_not_fatal f w msg) as H.
    destruct (outcome (main_switch f w)) as [[] | m | m];
      [| discriminate | congruence].
    rewrite outcome_main_deferred. discriminate.
  - apply streq_false in Ec. split; [assumption |].
    destruct (os_Create w (cpuProfFile f)) as [err |].
    { cbn in *. left. exists err. injection H as <-. auto. }
    destruct (pprof_StartCPUProfile w (cpuProfFile f)) as [err |].
    { cbn in *. right. exists err. injection H as <-. auto. }
    exfalso. revert H.
    destruct (NewClientFromFlags w); [discriminate |].
    rewrite !outcome_bind. cbn [emit outcome snd].
    pose proof (main_switch_not_fatal f w msg) as H.
    destruct (outcome (main_switch f w)) as [[] | m | m];
      [| discriminate | congruence].
    rewrite outcome_main_deferred. discriminate.
Qed.

Lemma client_closed_iff_main_returns_witness :
  In ClientClose (trace (main flags_profiled (world_with (go "") (go "")))).
Proof.
  apply (proj1 (client_closed_iff_main_returns flags_profiled
                  (world_with (go "") (go "")))).
  reflexivity.
Defined.

Lemma main_return_frame_witness :
  trace (main flags_profiled (world_with (go "") (go "")))
  = [FileCreate (go "cpu.prof"); StartCPUProfile (go "cpu.prof")]
    ++ [ClientConnect]
    ++ trace (main_switch flags_profiled (world_with (go "") (go "")))
    ++ [ClientClose] ++ [StopCPUProfile; FileClose (go "cpu.prof")].
Proof.
  apply (main_return_frame flags_profiled (world_with (go "") (go ""))).
  reflexivity.
Defined.

Lemma fatal_only_from_profile_witness :
  cpuProfFile flags_profiled <> go ""
  /\ ((exists err,
         os_Create world_readonly (cpuProfFile flags_profiled) = Some err
         /\ go "Could not create CPU profile: permission denied"
            = go "Could not create CPU profile: " ++ err
         /\ trace (main flags_profiled world_readonly) = [])
      \/ (exists err,
            os_Create world_readonly (cpuProfFile flags_profiled) = None
            /\ pprof_StartCPUProfile world_readonly (cpuProfFile flags_profiled)
               = Some err
            /\ go "Could not create CPU profile: permission denied"
               = go "Could not start CPU profile: " ++ err
            /\ trace (main flags_profiled world_readonly)
               = [FileCreate (cpuProfFile flags_profiled)])).
Proof.
  apply (fatal_only_from_profile flags_profiled world_readonly
           (go "Could not create CPU profile: permission denied")).
  reflexivity.
Defined.

(** ** The runs ComputeTree counts *)

(** ComputeTree, lines 171-175 and 192-193: when ComputeTree returns, what
    it has done is a sequence of tree builds, each with --input_root as its
    root, followed by one log of the number of runs, which is the number of
    those builds (in 64 bits); when it does not return, nothing is logged. *)
Theorem runs_logged_are_builds_started :
  forall f w,
    (outcome (ComputeTree f w) = Returned tt ->
       exists specs,
         trace (ComputeTree f w)
         = map (ComputeMerkleTree (inputRoot f)) specs
           ++ [LogInfoRan (wrap64 (Z.of_nat (List.length specs)))]
         /\ ((Z.of_nat (List.length specs) < 2 ^ 63)%Z ->
               trace (ComputeTree f w)
               = map (ComputeMerkleTree (inputRoot f)) specs
                 ++ [LogInfoRan (Z.of_nat (List.length specs))]))
    /\ (outcome (ComputeTree f w) <> Returned tt ->
          forall n, ~ In (LogInfoRan n) (trace (ComputeTree f w))).
Proof.
  intros f w. unfold ComputeTree, getPathFlag.
  destruct (streq (pathPrefix f) (go ""));
    [split; [discriminate | intros _ n []] |].
  rewrite bind_ret.
  destruct (os_Open w (pathPrefix f)) as [data |];
    [| split; [discriminate | intros _ n []]].
  destruct (ComputeTree_loop_counts (inputRoot f) (bufio.scanLines data)
              {| is_ := InputSpec_zero; totalRuns := 0 |} eq_refl)
    as (specs & Ht & Hn).
  destruct (ComputeTree_loop (inputRoot f) (bufio.scanLines data)
              {| is_ := InputSpec_zero; totalRuns := 0 |})
    as [t [st | m | m]]; cbn [trace outcome fst snd] in *; subst t.
  - split; [| intros H; now elim H].
    intros _. exists specs. specialize (Hn st eq_refl).
    cbn [totalRuns] in Hn. rewrite Z.add_0_l in Hn.
    cbn [bind emit trace fst]. rewrite Hn. split; [reflexivity |].
    intros Hlt. rewrite wrap64_small by lia. reflexivity.
  - split; [discriminate |]. intros _ n Hin. cbn in Hin.
    apply in_map_iff in Hin as (s0 & Hs & _). discriminate.
  - split; [discriminate |]. intros _ n Hin. cbn in Hin.
    apply in_map_iff in Hin as (s0 & Hs & _). discriminate.
Qed.

Lemma runs_logged_are_builds_started_witness :
  exists specs,
    trace (ComputeTree (flags_for computeTree (go "") (go "spec.txt") 10)
             (world_with one_record (go "")))
    = map (ComputeMerkleTree (go "")) specs
      ++ [LogInfoRan (wrap64 (Z.of_nat (List.length specs)))]
    /\ ((Z.of_nat (List.length specs) < 2 ^ 63)%Z ->
          trace (ComputeTree (flags_for computeTree (go "") (go "spec.txt") 10)
                   (world_with one_record (go "")))
          = map (ComputeMerkleTree (go "")) specs
            ++ [LogInfoRan (Z.of_nat (List.length specs))]).
Proof.
  apply (proj1 (runs_logged_are_builds_started
                  (flags_for computeTree (go "") (go "spec.txt") 10)
                  (world_with one_record (go "")))).
  reflexivity.
Defined.

(** ** Blank lines and open records *)

Lemma ComputeTree_on_open (f : Flags) (w : World) (data : gostring) :
  pathPrefix f <> go "" -> os_Open w (pathPrefix f) = Some data ->
  ComputeTree f w = ComputeTree_on (inputRoot f) (bufio.scanLines data).
Proof. apply ComputeTree_open. Qed.

Lemma ComputeTree_loop_blanks root (pre : list gostring) st :
  Forall blank pre -> InputSpec_empty (is_ st) = true ->
  ComputeTree_loop root pre st = ret st.
Proof.
  intros H Hs. induction H as [| l r Hl Hr IH]; [reflexivity |].
  cbn [ComputeTree_loop]. apply isBlank_true in Hl.
  rewrite ComputeTree_body_blank by assumption. unfold flush.
  now rewrite Hs, bind_ret.
Qed.

(** ComputeTree, lines 187-198: blank lines before the first record are
    passed over, and a file that is empty or holds blank lines only starts
    no build: the program logs 0 runs and returns. *)
Theorem leading_blank_lines_are_skipped :
  forall f w data pre rest,
    pathPrefix f <> go "" ->
    os_Open w (pathPrefix f) = Some data ->
    bufio.scanLines data = pre ++ rest ->
    Forall blank pre ->
    ComputeTree f w = ComputeTree_on (inputRoot f) rest
    /\ (rest = [] -> ComputeTree f w = ([LogInfoRan 0], Returned tt)).
Proof.
  intros f w data pre rest Hp Ho Hl Hb.
  assert (E : ComputeTree f w = ComputeTree_on (inputRoot f) rest).
  { rewrite (ComputeTree_on_open f w data Hp Ho), Hl.
    unfold ComputeTree_on. rewrite ComputeTree_loop_app.
    rewrite (ComputeTree_loop_blanks _ pre LoopState_start Hb eq_refl).
    now rewrite bind_ret. }
  split; [exact E |]. intros ->. rewrite E. reflexivity.
Qed.

Lemma leading_blank_lines_are_skipped_witness :
  ComputeTree (flags_for computeTree (go "") (go "spec.txt") 10)
    (world_with (LF ++ go "  " ++ LF) (go ""))
  = ([LogInfoRan 0], Returned tt).
Proof.
  apply (proj2 (leading_blank_lines_are_skipped
                  (flags_for computeTree (go "") (go "spec.txt") 10)
                  (world_with (LF ++ go "  " ++ LF) (go ""))
                  (LF ++ go "  " ++ LF) [go ""; go "  "] []
                  ltac:(discriminate) eq_refl eq_refl
                  ltac:(repeat constructor))).
  reflexivity.
Defined.

Lemma handed_over_removelast (gs : list (list gostring)) :
  Forall (Forall is_entry) gs -> gs <> [] ->
  fst (handed_over InputSpec_zero gs)
  = map spec_of_record (filter nonempty_group (removelast gs)).
Proof.
  induction 1 as [| g gs' Hg Hgs IH]; [congruence |]. intros _.
  destruct gs' as [| g' rest]; [reflexivity |].
  rewrite handed_over_cons. cbn [fst].
  change (removelast (g :: g' :: rest)) with (g :: removelast (g' :: rest)).
  cbn [filter map]. rewrite IH by discriminate.
  rewrite (add_lines_empty _ _ Hg). cbn.
  now destruct g.
Qed.

(** ComputeTree, lines 187-214: for a batch of well-formed lines, with or
    without a blank line at its end, the tree builds started are those of
    the records that a blank line follows, in order; the lines after the
    last blank line start none. *)
Theorem record_is_built_when_a_blank_line_follows :
  forall f w data,
    pathPrefix f <> go "" ->
    os_Open w (pathPrefix f) = Some data ->
    Forall (fun l => well_formed_line l = true) (bufio.scanLines data) ->
    exists n,
      ComputeTree f w
      = (map (ComputeMerkleTree (inputRoot f))
           (map spec_of_record
              (filter nonempty_group
                 (removelast (groups (bufio.scanLines data)))))
         ++ [LogInfoRan n],
         Returned tt).
Proof.
  intros f w data Hp Ho Hwf.
  rewrite (ComputeTree_open f w data Hp Ho).
  destruct (ComputeTree_loop_handed_over (inputRoot f) _ LoopState_start Hwf)
    as [n Hn].
  rewrite Hn. exists n. cbn [bind emit]. f_equal. f_equal. f_equal.
  cbn [LoopState_start is_].
  apply handed_over_removelast;
    [now apply groups_entries | apply groups_not_nil].
Qed.

Lemma record_is_built_when_a_blank_line_follows_witness :
  exists n,
    ComputeTree (flags_for computeTree (go "") (go "spec.txt") 10)
      (world_with two_records (go ""))
    = (map (ComputeMerkleTree (go ""))
         (map spec_of_record
            (filter nonempty_group
               (removelast (groups (bufio.scanLines two_records)))))
       ++ [LogInfoRan n],
       Returned tt).
Proof.
  apply (record_is_built_when_a_blank_line_follows
           (flags_for computeTree (go "") (go "spec.txt") 10)
           (world_with two_records (go "")) two_records).
  - discriminate.
  - reflexivity.
  - repeat constructor.
Defined.

(** ** What a record becomes *)

Lemma bind_nil {A B : Type} (a : A) (k : A -> M B) :
  bind ([], Returned a) k = k a.
Proof. exact (bind_ret a k). Qed.

Lemma add_lines_values (s : InputSpec) (g : list gostring) :
  add_lines s g
  = {| Inputs := Inputs s ++ input_values g;
       VirtualInputs := VirtualInputs s ++ map path_only (path_values g) |}.
Proof.
  revert s. induction g as [| l r IH]; intros s.
  - cbn. rewrite !app_nil_r. now destruct s.
  - cbn [add_lines input_values path_values flat_map].
    destruct (entry_of_line l) as [[p | p] |]; rewrite IH; cbn;
      rewrite <- ?app_assoc; reflexivity.
Qed.

Lemma values_length (g : list gostring) :
  Forall is_entry g ->
  List.length (input_values g) + List.length (path_values g) = List.length g.
Proof.
  induction 1 as [| l r Hl Hr IH]; [reflexivity |].
  cbn [input_values path_values flat_map]. unfold is_entry in Hl.
  destruct (entry_of_line l) as [[p | p] |]; [| | congruence];
    rewrite ?length_app; cbn [List.length app];
    fold (input_values r); fold (path_values r); lia.
Qed.

(** ComputeTree, lines 200-213 and 190-195: a record closed by a blank
    line is built as it was written: its inputs are the values of its
    [inputs:] lines in their order, its virtual inputs the values of its
    [path:] lines in their order, one for each line, a value given twice
    being kept twice; how the two kinds of lines were mixed is not kept. *)
Theorem record_keeps_its_lines_in_order :
  forall root g b,
    Forall (fun l => isBlank l = false /\ is_entry l) g ->
    g <> [] ->
    blank b ->
    ComputeTree_loop root (g ++ [b]) LoopState_start
    = ([ComputeMerkleTree root
          {| Inputs := input_values g;
             VirtualInputs := map path_only (path_values g) |}],
       Returned {| is_ := InputSpec_zero; totalRuns := 1 |})
    /\ List.length (input_values g) + List.length (path_values g)
       = List.length g.
Proof.
  intros root g b Hg Hne Hb. split.
  - rewrite ComputeTree_loop_app, (ComputeTree_loop_entries root g _ Hg).
    rewrite bind_nil. cbn [ComputeTree_loop].
    apply isBlank_true in Hb.
    rewrite ComputeTree_body_blank by assumption. unfold flush.
    cbn [is_ totalRuns LoopState_start].
    assert (He : InputSpec_empty (add_lines InputSpec_zero g) = false).
    { rewrite add_lines_empty.
      - destruct g; [congruence | reflexivity].
      - eapply Forall_impl; [| exact Hg]. now intros l [_ H]. }
    rewrite He, add_lines_values. reflexivity.
  - apply values_length. eapply Forall_impl; [| exact Hg]. now intros l [_ H].
Qed.

Lemma record_keeps_its_lines_in_order_witness :
  ComputeTree_loop (go "")
    ([go "path: p"; go "inputs: b"; go "inputs: a"; go "inputs: b"]
     ++ [go ""]) LoopState_start
  = ([ComputeMerkleTree (go "")
        {| Inputs :=
             input_values
               [go "path: p"; go "inputs: b"; go "inputs: a"; go "inputs: b"];
           VirtualInputs :=
             map path_only
               (path_values
                  [go "path: p"; go "inputs: b"; go "inputs: a";
                   go "inputs: b"]) |}],
     Returned {| is_ := InputSpec_zero; totalRuns := 1 |}).
Proof.
  apply (record_keeps_its_lines_in_order (go "")
           [go "path: p"; go "inputs: b"; go "inputs: a"; go "inputs: b"]
           (go "")).
  - repeat constructor; discriminate.
  - discriminate.
  - reflexivity.
Defined.

(** ComputeTree, lines 200-213: a line with a key and no value is
    accepted: [inputs:] adds the empty path to the inputs and [path:] a
    virtual input with the empty path, so that the record is not empty and
    the next blank line starts a build for it. *)
Theorem empty_value_is_accepted :
  forall root st w1 w2 w3,
    whitespace w1 -> whitespace w2 -> whitespace w3 ->
    ComputeTree_body root st (w1 ++ go "inputs" ++ w2 ++ colon :: w3)
    = ([], Returned
             {| is_ := {| Inputs := Inputs (is_ st) ++ [go ""];
                          VirtualInputs := VirtualInputs (is_ st) |};
                totalRuns := totalRuns st |})
    /\ ComputeTree_body root st (w1 ++ go "path" ++ w2 ++ colon :: w3)
       = ([], Returned
                {| is_ := {| Inputs := Inputs (is_ st);
                             VirtualInputs :=
                               VirtualInputs (is_ st) ++ [path_only (go "")] |};
                   totalRuns := totalRuns st |})
    /\ builds (trace (ComputeTree_loop root
                        [w1 ++ go "inputs" ++ w2 ++ colon :: w3; go ""]
                        LoopState_start))
       = [{| Inputs := [go ""]; VirtualInputs := [] |}].
Proof.
  intros root st w1 w2 w3 H1 H2 H3.
  assert (E : forall key,
            tight key = true -> ~ In colon key ->
            entry_of_line (w1 ++ key ++ w2 ++ colon :: w3)
            = if streq key (go "inputs") then Some (InputEntry [])
              else if streq key (go "path") then Some (VirtualEntry [])
                   else None).
  { intros key Tk Ck.
    rewrite <- (entry_of_line_padded w1 key w2 w3 [] [])
      by (assumption || constructor || reflexivity || (intros [])).
    now rewrite !app_nil_r. }
  assert (B : forall key st0,
            ComputeTree_body root st0 (w1 ++ key ++ w2 ++ colon :: w3)
            = match entry_of_line (w1 ++ key ++ w2 ++ colon :: w3) with
              | Some e =>
                  ret {| is_ := add_entry (is_ st0) e;
                         totalRuns := totalRuns st0 |}
              | None =>
                  log_Exitf (go "broken line "
                             ++ (w1 ++ key ++ w2 ++ colon :: w3))
              end).
  { intros key st0. apply ComputeTree_body_entry.
    replace (w1 ++ key ++ w2 ++ colon :: w3)
      with ((w1 ++ key ++ w2) ++ colon :: w3)
      by now rewrite <- !app_assoc.
    apply colon_line_not_blank. }
  split; [| split].
  - rewrite B, (E (go "inputs") eq_refl no_colon_inputs). reflexivity.
  - rewrite B, (E (go "path") eq_refl no_colon_path). reflexivity.
  - cbn [ComputeTree_loop].
    rewrite B, (E (go "inputs") eq_refl no_colon_inputs). reflexivity.
Qed.

Lemma empty_value_is_accepted_witness :
  ComputeTree_body (go "") LoopState_start
    ([] ++ go "inputs" ++ [] ++ colon :: go " ")
  = ([], Returned
           {| is_ := {| Inputs := [] ++ [go ""]; VirtualInputs := [] |};
              totalRuns := 0 |}).
Proof.
  apply (empty_value_is_accepted (go "") LoopState_start [] [] (go " ")).
  - constructor.
  - constructor.
  - apply runes_one; [reflexivity | constructor].
Defined.

(** ** The scanner *)

Lemma rawLines_line (l rest : gostring) :
  ~ In bufio.newline l ->
  bufio.rawLines (l ++ bufio.newline :: rest) = l :: bufio.rawLines rest.
Proof.
  induction l as [| c l' IH]; intros H; cbn.
  - reflexivity.
  - destruct (Ascii.eqb_spec c bufio.newline) as [-> | Hc].
    + exfalso. apply H. now left.
    + rewrite IH; [reflexivity |]. intros Hin. apply H. now right.
Qed.

Lemma rawLines_unlines (pre : list gostring) (rest : gostring) :
  Forall (fun l => ~ In bufio.newline l) pre ->
  bufio.rawLines (unlines LF pre ++ rest) = pre ++ bufio.rawLines rest.
Proof.
  induction 1 as [| l r Hl Hr IH]; [reflexivity |].
  unfold unlines in *. cbn [map List.concat].
  rewrite <- !app_assoc. cbn [LF app].
  rewrite rawLines_line by assumption. cbn. now rewrite IH.
Qed.

Lemma takeFitting_all (ls : list gostring) :
  Forall (fun l => bufio.fits l = true) ls -> bufio.takeFitting ls = ls.
Proof.
  induction 1 as [| l r Hl Hr IH]; cbn; [reflexivity |].
  now rewrite Hl, IH.
Qed.

Lemma takeFitting_stop (pre : list gostring) long post :
  Forall (fun l => bufio.fits l = true) pre -> bufio.fits long = false ->
  bufio.takeFitting (pre ++ long :: post) = pre.
Proof.
  intros H Hl. induction H as [| l r Hf Hr IH]; cbn.
  - now rewrite Hl.
  - now rewrite Hf, IH.
Qed.

Lemma dropCR_plain (l : gostring) :
  ends_with_cr l = false -> bufio.dropCR l = l.
Proof.
  unfold ends_with_cr, bufio.dropCR. destruct (rev l); [reflexivity |].
  now intros ->.
Qed.

Lemma dropCR_cr (l : gostring) : bufio.dropCR (l ++ [bufio.cr]) = l.
Proof.
  unfold bufio.dropCR. rewrite rev_app_distr. cbn.
  apply rev_involutive.
Qed.

Lemma fits_shorter (l : gostring) c :
  bufio.fits (l ++ [c]) = true -> bufio.fits l = true.
Proof.
  unfold bufio.fits. rewrite length_app. cbn.
  rewrite !N.ltb_lt. lia.
Qed.

Lemma unlines_CRLF (lines : list gostring) :
  unlines CRLF lines = unlines LF (map (fun l => l ++ [bufio.cr]) lines).
Proof.
  unfold unlines. induction lines as [| l r IH]; [reflexivity |].
  cbn [map List.concat]. rewrite IH. now rewrite <- !app_assoc.
Qed.

(** ComputeTree, lines 182-188 (bufio.Scanner with bufio.ScanLines): the
    scanner gives back the lines of a file as they were written, whether
    each line ends with a line feed or with carriage return and line feed,
    so ComputeTree does the same on the two files. *)
Theorem scanner_reads_back_the_lines :
  forall lines,
    Forall plain_line lines ->
    bufio.scanLines (unlines LF lines) = lines
    /\ bufio.scanLines (unlines CRLF lines) = lines
    /\ forall f w,
         pathPrefix f <> go "" ->
         os_Open w (pathPrefix f) = Some (unlines LF lines)
         \/ os_Open w (pathPrefix f) = Some (unlines CRLF lines) ->
         ComputeTree f w = ComputeTree_on (inputRoot f) lines.
Proof.
  intros lines H.
  assert (Hnl : Forall (fun l => ~ In bufio.newline l) lines)
    by (eapply Forall_impl; [| exact H]; now intros l [H1 _]).
  assert (Hcr : Forall (fun l => ends_with_cr l = false) lines)
    by (eapply Forall_impl; [| exact H]; now intros l [_ [H1 _]]).
  assert (Hfc : Forall (fun l => bufio.fits (l ++ [bufio.cr]) = true) lines)
    by (eapply Forall_impl; [| exact H]; now intros l [_ [_ H1]]).
  assert (E1 : bufio.scanLines (unlines LF lines) = lines).
  { unfold bufio.scanLines.
    rewrite <- (app_nil_r (unlines LF lines)), rawLines_unlines by assumption.
    cbn [bufio.rawLines]. rewrite app_nil_r, takeFitting_all.
    - clear - Hcr. induction Hcr as [| l r Hl Hr IH]; cbn; [reflexivity |].
      now rewrite dropCR_plain, IH.
    - eapply Forall_impl; [| exact Hfc]. intros l. apply fits_shorter. }
  assert (E2 : bufio.scanLines (unlines CRLF lines) = lines).
  { unfold bufio.scanLines. rewrite unlines_CRLF.
    rewrite <- (app_nil_r (unlines LF _)), rawLines_unlines.
    - cbn [bufio.rawLines]. rewrite app_nil_r, takeFitting_all.
      + rewrite map_map. clear. induction lines as [| l r IH]; cbn;
          [reflexivity |]. now rewrite dropCR_cr, IH.
      + apply Forall_map. exact Hfc.
    - apply Forall_map. eapply Forall_impl; [| exact Hnl].
      intros l Hl Hin. apply in_app_or in Hin as [Hin | [Hin | []]];
        [now apply Hl | discriminate]. }
  split; [exact E1 | split; [exact E2 |]].
  intros f w Hp [Ho | Ho]; rewrite (ComputeTree_on_open f w _ Hp Ho);
    now rewrite ?E1, ?E2.
Qed.

Lemma scanner_reads_back_the_lines_witness :
  bufio.scanLines (unlines CRLF [go "inputs: a.txt"; go ""])
  = [go "inputs: a.txt"; go ""].
Proof.
  apply (scanner_reads_back_the_lines [go "inputs: a.txt"; go ""]).
  repeat constructor; cbn; intuition discriminate.
Defined.

(** ComputeTree, lines 182-188: the loop ends when scanner.Scan() returns
    false, and the error of the scanner is never looked at.  So at a line
    of MaxScanTokenSize bytes or more the run ends as if the file ended
    before that line: the long line and all the lines after it are never
    read, and no error is reported for them. *)
Theorem long_line_ends_the_run_silently :
  forall f w data pre long rest,
    pathPrefix f <> go "" ->
    os_Open w (pathPrefix f) = Some data ->
    data = unlines LF pre ++ long ++ LF ++ rest ->
    Forall (fun l => ~ In bufio.newline l /\ bufio.fits l = true) pre ->
    ~ In bufio.newline long ->
    bufio.fits long = false ->
    bufio.scanLines data = map bufio.dropCR pre
    /\ ComputeTree f w
       = ComputeTree_on (inputRoot f) (map bufio.dropCR pre).
Proof.
  intros f w data pre long rest Hp Ho -> Hpre Hnl Hlong.
  assert (E : bufio.scanLines (unlines LF pre ++ long ++ LF ++ rest)
              = map bufio.dropCR pre).
  { unfold bufio.scanLines. rewrite rawLines_unlines
      by (eapply Forall_impl; [| exact Hpre]; now intros l [H _]).
    cbn [LF app]. rewrite rawLines_line by assumption.
    rewrite takeFitting_stop; [reflexivity | | assumption].
    eapply Forall_impl; [| exact Hpre]. now intros l [_ H]. }
  split; [exact E |].
  now rewrite (ComputeTree_on_open f w _ Hp Ho), E.
Qed.

Lemma long_line_ends_the_run_silently_witness :
  bufio.scanLines truncated_batch
  = map bufio.dropCR [go "inputs: a.txt"; go ""]
  /\ ComputeTree (flags_for computeTree (go "") (go "spec.txt") 10)
       (world_with truncated_batch (go ""))
     = ComputeTree_on (go "") (map bufio.dropCR [go "inputs: a.txt"; go ""]).
Proof.
  apply (long_line_ends_the_run_silently
           (flags_for computeTree (go "") (go "spec.txt") 10)
           (world_with truncated_batch (go "")) truncated_batch
           [go "inputs: a.txt"; go ""] long_line (go "inputs b.txt")).
  - discriminate.
  - reflexivity.
  - reflexivity.
  - repeat constructor; cbn; intuition discriminate.
  - intros H. apply repeat_spec in H. discriminate.
  - vm_compute. reflexivity.
Defined.

(** ** Calls and output of main *)

(** main, lines 81-106: nothing is called on the client unless the flags
    passed the two checks and the connection was made: every call comes
    after the connection. *)
Theorem calls_only_after_connect :
  forall f w,
    calls (trace (main f w)) <> [] ->
    operation f <> go "" /\ (1 <= execAttempts f)%Z
    /\ NewClientFromFlags w = None
    /\ exists tp rest,
         trace (main f w) = tp ++ ClientConnect :: rest /\ calls tp = [].
Proof.
  intros f w. unfold main.
  destruct (streq (operation f) (go "")) eqn:E1; [intros H; now elim H |].
  destruct (Z.leb_spec (execAttempts f) 0) as [E2 | E2];
    [intros H; now elim H |].
  assert (Hp : calls (trace (main_startProfile f w)) = [])
    by (apply main_startProfile_collect; now intros []).
  rewrite trace_bind.
  destruct (main_startProfile f w) as [tp [[] | m | m]];
    cbn [trace outcome fst snd] in *.
  2, 3: rewrite app_nil_r; intros H; now elim H.
  destruct (NewClientFromFlags w) as [err |].
  { cbn. rewrite app_nil_r. intros H; now elim H. }
  intros _. apply streq_false in E1.
  repeat split; [assumption | lia |].
  rewrite trace_bind. cbn [emit trace outcome fst snd app].
  eexists tp, _. split; [reflexivity | assumption].
Qed.

Lemma calls_only_after_connect_witness :
  operation (flags_for showAction (go "abc/3") (go "") 10) <> go ""
  /\ (1 <= execAttempts (flags_for showAction (go "abc/3") (go "") 10))%Z
  /\ NewClientFromFlags (world_with (go "") (go "")) = None
  /\ exists tp rest,
       trace (main (flags_for showAction (go "abc/3") (go "") 10)
                (world_with (go "") (go "")))
       = tp ++ ClientConnect :: rest
       /\ calls tp = [].
Proof.
  apply (calls_only_after_connect
           (flags_for showAction (go "abc/3") (go "") 10)
           (world_with (go "") (go ""))).
  discriminate.
Defined.

Lemma stdout_chunks_In (cs : list Chunk) (b : gostring) :
  In b (stdout_chunks cs) <-> In (ToStdout b) cs.
Proof.
  unfold stdout_chunks. rewrite in_flat_map. split.
  - intros (c & Hc & Hb). destruct c as [b' | b']; [| destruct Hb].
    destruct Hb as [<- | []]. exact Hc.
  - intros H. exists (ToStdout b). split; [exact H | now left].
Qed.

Lemma main_switch_stdout (f : Flags) (w : World) (b : gostring) :
  In b (stdout (trace (main_switch f w))) ->
  (operation f = downloadBlob
   /\ tool_DownloadBlob w (digest f) (pathPrefix f) = inl b)
  \/ (operation f = showAction /\ tool_ShowAction w (digest f) = inl b)
  \/ (operation f = reexecuteAction
      /\ In (ToStdout b)
           (streamed (tool_ReexecuteAction w (digest f) (inputRoot f)))).
Proof.
  destruct (gostring_dec (operation f) computeTree) as [E | Hne].
  { rewrite (main_switch_computeTree f w E), ComputeTree_stdout.
    intros []. }
  destruct (gostring_dec (operation f) reexecuteAction) as [E | Hre].
  { rewrite (main_switch_reexecute_stdout f w E).
    destruct (streq (digest f) (go "")); [intros [] |].
    intros H. right. right. split; [exact E |].
    now apply stdout_chunks_In. }
  switch_cases f;
    repeat match goal with
    | H : streq _ _ = true |- _ => apply streq_true in H
    end;
    try contradiction.
  - flag_cases f; try (intros []).
    destruct (tool_DownloadActionResult w (digest f) (pathPrefix f));
      intros [].
  - flag_cases f; try (intros []).
    destruct (tool_DownloadBlob w (digest f) (pathPrefix f)) eqn:Er;
      cbn; [| intros []].
    intros [<- | []]. left. now split.
  - flag_cases f; try (intros []).
    destruct (tool_DownloadDirectory w (digest f) (pathPrefix f));
      intros [].
  - flag_cases f; try (intros []);
      (destruct (tool_ShowAction w (digest f)) eqn:Er; cbn;
       [| intros []]);
      intros [<- | []]; right; left; now split.
  - flag_cases f; try (intros []);
      destruct (tool_CheckDeterminism w (digest f) (inputRoot f)
                  (execAttempts f));
      intros [].
  - flag_cases f; try (intros []);
      destruct (tool_UploadBlob w (pathPrefix f)); intros [].
Qed.

(** main, lines 114-134: what reaches the standard output of the program
    is nothing but what DownloadBlob, for download_blob, or ShowAction, for
    show_action, has returned without an error, called with the flags as
    given, and, for reexecute_action, what ReexecuteAction has written to
    the standard output of the sink outerr.SystemOutErr. *)
Theorem written_is_what_the_call_returned :
  forall f w b,
    In b (stdout (trace (main f w))) ->
    (operation f = downloadBlob
     /\ tool_DownloadBlob w (digest f) (pathPrefix f) = inl b)
    \/ (operation f = showAction /\ tool_ShowAction w (digest f) = inl b)
    \/ (operation f = reexecuteAction
        /\ In (ToStdout b)
             (streamed (tool_ReexecuteAction w (digest f) (inputRoot f)))).
Proof.
  intros f w b H.
  destruct (main_collect
              (fun e => match e with StdoutWrite b => Some b | _ => None end)
              f w) as [E | E].
  - now intros [].
  - unfold stdout in H. rewrite E in H. destruct H.
  - apply main_switch_stdout. unfold stdout in *. now rewrite <- E.
Qed.

Lemma written_is_what_the_call_returned_witness :
  (operation (flags_for reexecuteAction (go "abc/3") (go "") 10)
   = downloadBlob
   /\ tool_DownloadBlob world_streaming
        (digest (flags_for reexecuteAction (go "abc/3") (go "") 10))
        (pathPrefix (flags_for reexecuteAction (go "abc/3") (go "") 10))
      = inl (go "put"))
  \/ (operation (flags_for reexecuteAction (go "abc/3") (go "") 10)
      = showAction
      /\ tool_ShowAction world_streaming
           (digest (flags_for reexecuteAction (go "abc/3") (go "") 10))
         = inl (go "put"))
  \/ (operation (flags_for reexecuteAction (go "abc/3") (go "") 10)
      = reexecuteAction
      /\ In (ToStdout (go "put"))
           (streamed
              (tool_ReexecuteAction world_streaming
                 (digest (flags_for reexecuteAction (go "abc/3") (go "") 10))
                 (inputRoot
                    (flags_for reexecuteAction (go "abc/3") (go "") 10))))).
Proof.
  apply (written_is_what_the_call_returned
           (flags_for reexecuteAction (go "abc/3") (go "") 10)
           world_streaming (go "put")).
  cbn. tauto.
Defined.
